(** * symconf / autoconf: theme resolution and link reconciliation

    A shallow embedding of [autoconf/config.py] (class [ConfigManager]) and of
    the link loop of [autoconf/set_theme.py], over a small model of the
    filesystem, with the properties of the specification stated against it. *)

From Stdlib Require Import String Ascii List Bool Arith Lia.
From stdpp Require Import base tactics option list strings gmap sets.

Local Open Scope string_scope.
Local Open Scope list_scope.

(** ** Python strings: [str.split], [str.join] and [PurePath.stem] *)

Module PyStr.

(** [s.split(sep)] for a one-character separator: never empty, one more
    piece than there are separators. *)
Fixpoint split (sep : ascii) (s : string) : list string :=
  match s with
  | EmptyString => [EmptyString]
  | String c rest =>
      if Ascii.eqb c sep then EmptyString :: split sep rest
      else match split sep rest with
           | [] => [String c EmptyString]
           | w :: ws => String c w :: ws
           end
  end.

(** [sep.join(parts)]. *)
Fixpoint join (sep : string) (parts : list string) : string :=
  match parts with
  | [] => EmptyString
  | [w] => w
  | w :: ws => w +:+ sep +:+ join sep ws
  end.

Definition dot : ascii := "."%char.

Definition is_empty (s : string) : bool :=
  match s with EmptyString => true | _ => false end.

(** [PurePath.stem]: the name up to its last dot, unless that dot is the
    first or the last character (then the whole name). *)
Definition stem (name : string) : string :=
  match split dot name with
  | [] | [_] => name
  | parts =>
      let front := join "." (removelast parts) in
      if is_empty front || is_empty (List.last parts EmptyString)
      then name else front
  end.

(** [PurePath.suffix]: what [stem] leaves out, the last dot included. *)
Definition suffix (name : string) : string :=
  match split dot name with
  | [] | [_] => EmptyString
  | parts =>
      if is_empty (join "." (removelast parts)) || is_empty (List.last parts EmptyString)
      then EmptyString else "." +:+ List.last parts EmptyString
  end.

End PyStr.

(** ** Python dictionaries, in insertion order *)

Module PyDict.
Section dict.
Context {K V : Type} `{EqDecision K}.

Definition dict := list (K * V).

(** [d[k]] / [d.get(k)] *)
Fixpoint get (d : dict) (k : K) : option V :=
  match d with
  | [] => None
  | (k', v) :: rest => if decide (k' = k) then Some v else get rest k
  end.

(** [d[k] = v]: a known key keeps its position, a new one goes last. *)
Fixpoint set (d : dict) (k : K) (v : V) : dict :=
  match d with
  | [] => [(k, v)]
  | (k', v') :: rest =>
      if decide (k' = k) then (k, v) :: rest else (k', v') :: set rest k v
  end.

Definition keys (d : dict) : list K := map fst d.

(** [k in d] *)
Definition mem (d : dict) (k : K) : bool :=
  match get d k with Some _ => true | None => false end.

End dict.
Global Arguments dict : clear implicits.
End PyDict.

(** ** Paths and the filesystem *)

(** A path is the list of its components below the root.  Application names
    and file names are single components. *)
Definition path := list string.

(** [Path(p, name)] for a one-component [name]. *)
Definition child (p : path) (name : string) : path :=
  if PyStr.is_empty name then p else p ++ [name].
(** [p.name] *)
Definition name_of (p : path) : string := List.last p EmptyString.
(** [p.parent] *)
Definition parent (p : path) : path := removelast p.
(** [p.stem] *)
Definition stem_of (p : path) : string := PyStr.stem (name_of p).

Inductive node :=
| File (content : string)
| Dir
| Symlink (target : path).

Global Instance node_eq_dec : EqDecision node.
Proof. solve_decision. Defined.

Definition is_link (n : option node) : bool :=
  match n with Some (Symlink _) => true | _ => false end.

(** Python exceptions the modelled code can raise. *)
Inductive exn :=
| NameError (name : string)
| UnboundLocalError (name : string)
| TypeError
| AttributeError (attr : string)
| CalledProcessError (cmd : path)
| NotADirectoryError (p : path)
| IsADirectoryError (p : path)
| KeyError (key : string)
| ValueError
| FileExistsError (p : path)
| FileNotFoundError (p : path).

Global Instance exn_eq_dec : EqDecision exn.
Proof. solve_decision. Defined.

Inductive result (A : Type) :=
| Ok (a : A)
| Raise (e : exn).
Global Arguments Ok {A} a.
Global Arguments Raise {A} e.

Global Instance result_eq_dec {A} `{EqDecision A} : EqDecision (result A).
Proof. solve_decision. Defined.

Module FS.

(** The disk: what [lstat] finds at each path.  Paths are taken canonical
    up to their last component: only the node a path names may be a link,
    which [stat] follows. *)
Abbreviation t := (gmap path node).

Definition lstat (d : t) (p : path) : option node := d !! p.

(** The kernel follows at most 40 links before giving up (ELOOP). *)
Fixpoint follow (fuel : nat) (d : t) (p : path) : option node :=
  match fuel with
  | O => None
  | S fuel' =>
      match d !! p with
      | Some (Symlink target) => follow fuel' d target
      | other => other
      end
  end.

Definition stat (d : t) (p : path) : option node := follow 41 d p.

(** [p.exists()], [p.is_dir()], [p.is_symlink()] *)
Definition exists_ (d : t) (p : path) : bool :=
  match stat d p with Some _ => true | None => false end.
Definition is_dir (d : t) (p : path) : bool :=
  match stat d p with Some Dir => true | _ => false end.
Definition is_symlink (d : t) (p : path) : bool := is_link (lstat d p).

(** [p.iterdir()]: the entries directly below [p].  The order in which the
    system lists a directory is unspecified; the model fixes one. *)
Definition entries (d : t) (p : path) : gset path :=
  filter (λ q, q ≠ [] ∧ parent q = p) (dom d).
Definition iterdir (d : t) (p : path) : list path := elements (entries d p).

(** [p.unlink(missing_ok=True)]: only a missing file is forgiven. *)
Definition unlink (d : t) (p : path) : result t :=
  match stat d (parent p) with
  | None => Ok d
  | Some Dir =>
      match d !! p with
      | None => Ok d
      | Some Dir => Raise (IsADirectoryError p)
      | Some _ => Ok (delete p d)
      end
  | Some _ => Raise (NotADirectoryError p)
  end.

(** [p.symlink_to(target)]: a missing parent and a parent that is not a
    directory are different errors. *)
Definition symlink_to (d : t) (p target : path) : result t :=
  match stat d (parent p) with
  | Some Dir =>
      match d !! p with
      | None => Ok (<[p := Symlink target]> d)
      | Some _ => Raise (FileExistsError p)
      end
  | Some _ => Raise (NotADirectoryError p)
  | None => Raise (FileNotFoundError p)
  end.

End FS.

(** ** Effects: the disk is threaded, the console is written, exceptions stop *)

(** What the program prints or launches, in the order it happens. *)
Inductive event :=
| MsgConfigConflict (app : string)
| MsgMissingArtifact (to_path : path)
| MsgMissingTargetParent (from_path : path)
| MsgForeignFileConflict (from_path : path)
| MsgRunningScript (script : path)
| ExecScript (script : path)
| MsgScriptOutput (script : path)
| MsgLinked (app : string) (from_path to_path : path)
| MsgFailed (app : string) (from_path to_path : path)
| MsgNoneRegistered
| MsgNotRegistered (app : string)
| MsgUnsupportedOS (osname app : string)
| MsgMissingTarget (to_path : path)
| MsgOriginNotSymlink (from_path : path)
| MsgLinking (from_path to_path : path)
| ExecRefresh (cmd : string)
| MsgThemeLinked (app from_name to_name : string)
| MsgThemeFailed (app from_name to_name : string).

Global Instance event_eq_dec : EqDecision event.
Proof. solve_decision. Defined.

Definition M (A : Type) : Type := FS.t → result A * FS.t * list event.

Definition ret {A} (a : A) : M A := λ d, (Ok a, d, []).
Definition raise {A} (e : exn) : M A := λ d, (Raise e, d, []).
Definition bind {A B} (c : M A) (k : A → M B) : M B :=
  λ d, match c d with
       | (Ok a, d1, out1) =>
           match k a d1 with (r, d2, out2) => (r, d2, out1 ++ out2) end
       | (Raise e, d1, out1) => (Raise e, d1, out1)
       end.
Definition print (e : event) : M unit := λ d, (Ok tt, d, [e]).
Definition read_disk : M FS.t := λ d, (Ok d, d, []).
(** A filesystem call: its exception propagates, its effect stays. *)
Definition syscall (f : FS.t → result FS.t) : M unit :=
  λ d, match f d with
       | Ok d' => (Ok tt, d', [])
       | Raise e => (Raise e, d, [])
       end.
Definition lift {A} (r : result A) : M A := λ d, (r, d, []).

Global Instance M_ret : MRet M := @ret.
Global Instance M_bind : MBind M := λ A B k c, bind c k.

Definition value_of {A} (x : result A * FS.t * list event) : result A := x.1.1.
Definition disk_of {A} (x : result A * FS.t * list event) : FS.t := x.1.2.
Definition output_of {A} (x : result A * FS.t * list event) : list event := x.2.

(** ** External collaborators *)

(** [util.absolute_path] (the module [autoconf.util] is not part of the
    sources at hand), the exit status of a reload script, and whether
    [colorama.Style] offers the attribute [RESET] that the script report
    reads.  What a script does to the disk is outside the model. *)
Record environment := {
  absolute_path : path → path;
  script_succeeds : path → bool;
  style_has_reset : bool
}.

(** ** [autoconf/config.py] *)

(** The two options of an application's settings that the manager reads:
    [None] is an absent key. *)
Record app_settings := {
  config_dir : option path;
  config_map : option (gmap string path)
}.

Definition no_settings : app_settings :=
  {| config_dir := None; config_map := None |}.

(** A link to set: [from_path] is where the link is made, [to_path] the
    internal file it points to. *)
Definition link_op : Type := path * path.

Module ConfigManager.

Record t := {
  self_config_dir : path;
  app_registry : PyDict.dict string app_settings
}.

Definition apps_dir (self : t) : path := child (self_config_dir self) "apps".

Definition resolve_scheme (scheme : string) : string :=
  if decide (scheme = "auto") then "any" else scheme.

Definition resolve_palette (palette : string) : string :=
  if decide (palette = "auto") then "any" else palette.

(** One pass of the inner loop of [app_config_map]. *)
Definition scan_subdir (d : FS.t) (app_dir : path)
    (file_map : PyDict.dict string path) (subdir : string)
  : PyDict.dict string path :=
  let subdir_path := child app_dir subdir in
  if negb (FS.is_dir d subdir_path) then file_map
  else fold_left (λ fm conf_file, PyDict.set fm (name_of conf_file) conf_file)
                 (FS.iterdir d subdir_path) file_map.

Definition app_config_map (self : t) (d : FS.t) (app_name : string)
  : PyDict.dict string path :=
  let app_dir := child (apps_dir self) app_name in
  fold_left (scan_subdir d app_dir) ["generated"; "user"] [].

(** The first loop of [get_matching_configs].  The message of the
    malformed branch reads [filename], a name bound nowhere: formatting it
    raises before anything is printed. *)
Fixpoint file_parts_of (pathnames : list string)
    (file_parts : list (string * string * string))
  : result (list (string * string * string)) :=
  match pathnames with
  | [] => Ok file_parts
  | pathname :: rest =>
      let parts := PyStr.split PyStr.dot pathname in
      if Nat.ltb (List.length parts) 2 then Raise (NameError "filename")
      else
        let theme_part := hd EmptyString parts in
        let conf_part := PyStr.join "." (tl parts) in
        file_parts_of rest (file_parts ++ [(theme_part, conf_part, pathname)])
  end.

Definition theme_prefixes (scheme palette : string) : list string :=
  [ "any-any";
    "any-" +:+ scheme;
    palette +:+ "-any";
    palette +:+ "-" +:+ scheme ].

(** The inner loop of the matching pass, for one [theme_prefix]. *)
Fixpoint match_prefix (catalog : PyDict.dict string path)
    (theme_prefix : string) (file_parts : list (string * string * string))
    (matching_file_map : PyDict.dict string path)
  : result (PyDict.dict string path) :=
  match file_parts with
  | [] => Ok matching_file_map
  | (theme_part, conf_part, pathname) :: rest =>
      if decide (theme_part = theme_prefix) then
        match PyDict.get catalog pathname with
        | Some full_path =>
            match_prefix catalog theme_prefix rest
              (PyDict.set matching_file_map conf_part full_path)
        | None => Raise (KeyError pathname)
        end
      else match_prefix catalog theme_prefix rest matching_file_map
  end.

Fixpoint match_prefixes (catalog : PyDict.dict string path)
    (prefixes : list string) (file_parts : list (string * string * string))
    (matching_file_map : PyDict.dict string path)
  : result (PyDict.dict string path) :=
  match prefixes with
  | [] => Ok matching_file_map
  | theme_prefix :: rest =>
      match match_prefix catalog theme_prefix file_parts matching_file_map with
      | Ok m => match_prefixes catalog rest file_parts m
      | Raise e => Raise e
      end
  end.

Definition get_matching_configs (self : t) (d : FS.t) (app_name : string)
    (scheme palette : string) : result (PyDict.dict string path) :=
  let scheme := resolve_scheme scheme in
  let palette := resolve_palette palette in
  let catalog := app_config_map self d app_name in
  match file_parts_of (PyDict.keys catalog) [] with
  | Raise e => Raise e
  | Ok file_parts =>
      match_prefixes catalog (theme_prefixes scheme palette) file_parts []
  end.

(** [get_matching_scripts]: a bare [return] (Python's [None]) when the
    application has no [call/] directory, else the matched scripts with
    duplicates removed through a set. *)
Definition get_matching_scripts (self : t) (d : FS.t) (app_name : string)
    (scheme palette : string) : option (list path) :=
  let app_dir := child (apps_dir self) app_name in
  let call_dir := child app_dir "call" in
  if negb (FS.is_dir d call_dir) then None
  else
    let script_list :=
      flat_map (λ theme_prefix,
                  filter (λ script_path, stem_of script_path = theme_prefix)
                         (FS.iterdir d call_dir))
               (theme_prefixes scheme palette) in
    Some (elements (list_to_set script_list : gset path)).

(** The [config_map] branch of the planning step.  The link source is
    built with [abs_pat], a name bound nowhere ([util.absolute_path] in the
    sibling branch): the first mapped name raises. *)
Fixpoint plan_config_map (cm : gmap string path)
    (items : list (string * path)) (to_symlink : list link_op)
  : result (list link_op) :=
  match items with
  | [] => Ok to_symlink
  | (config_tail, full_path) :: rest =>
      match cm !! config_tail with
      | Some _ => Raise (NameError "abs_pat")
      | None => plan_config_map cm rest to_symlink
      end
  end.

(** [to_symlink], as [update_app_config] builds it from the matched files. *)
Definition plan_links (env : environment) (settings : app_settings)
    (file_map : PyDict.dict string path) : result (list link_op) :=
  match config_dir settings with
  | Some cd =>
      Ok (map (λ '(config_tail, full_path),
                 (absolute_path env (child cd config_tail), full_path))
              file_map)
  | None =>
      match config_map settings with
      | Some cm => plan_config_map cm file_map []
      | None => Ok []
      end
  end.

(** The body of the link loop up to [links_succ.append]: [true] when the
    link was set, [false] when the operation goes to [links_fail]. *)
Definition link_step (op : link_op) : M bool :=
  let '(from_path, to_path) := op in
  d ← read_disk;
  if negb (FS.exists_ d to_path) then
    print (MsgMissingArtifact to_path);; mret false
  else if negb (FS.exists_ d (parent from_path)) then
    print (MsgMissingTargetParent from_path);; mret false
  else if FS.exists_ d from_path && negb (FS.is_symlink d from_path) then
    print (MsgForeignFileConflict from_path);; mret false
  else
    syscall (λ d, FS.unlink d from_path);;
    syscall (λ d, FS.symlink_to d from_path to_path);;
    mret true.

Fixpoint for_each {A} (l : list A) (body : A → M unit) : M unit :=
  match l with
  | [] => mret tt
  | x :: rest => body x;; for_each rest body
  end.

(** The body of the script loop.  (The f-string of its first [print] lacks
    the parenthesis that closes [relative_to(]; it is read with it.) *)
Definition run_script (env : environment) (script : path) : M unit :=
  print (MsgRunningScript script);;
  print (ExecScript script);;
  (if script_succeeds env script then mret tt
   else raise (CalledProcessError script));;
  if style_has_reset env then print (MsgScriptOutput script)
  else raise (AttributeError "RESET").

(** Looking the scripts up and iterating over what came back. *)
Definition run_matching_scripts (self : t) (env : environment)
    (app_name scheme palette : string) : M unit :=
  d ← read_disk;
  match get_matching_scripts self d app_name scheme palette with
  | None => raise TypeError
  | Some script_list => for_each script_list (run_script env)
  end.

(** The link loop. *)
Fixpoint apply_links (self : t) (env : environment)
    (app_name scheme palette : string) (to_symlink : list link_op)
    (links_succ links_fail : list link_op)
  : M (list link_op * list link_op) :=
  match to_symlink with
  | [] => mret (links_succ, links_fail)
  | op :: rest =>
      linked ← link_step op;
      if linked : bool then
        run_matching_scripts self env app_name scheme palette;;
        apply_links self env app_name scheme palette rest
          (links_succ ++ [op]) links_fail
      else
        apply_links self env app_name scheme palette rest
          links_succ (links_fail ++ [op])
  end.

(** [p.relative_to(base)] *)
Fixpoint relative_to (p base : path) : result path :=
  match base, p with
  | [] , _ => Ok p
  | b :: base', c :: p' =>
      if decide (b = c) then relative_to p' base' else Raise ValueError
  | _ :: _, [] => Raise ValueError
  end.

(** The two closing loops. *)
Definition report (self : t) (app_name : string)
    (links_succ links_fail : list link_op) : M unit :=
  for_each links_succ (λ '(from_p, to_p),
    to_p ← lift (relative_to to_p (self_config_dir self));
    print (MsgLinked app_name from_p to_p));;
  for_each links_fail (λ '(from_p, to_p),
    to_p ← lift (relative_to to_p (self_config_dir self));
    print (MsgFailed app_name from_p to_p)).

Definition update_app_config (self : t) (env : environment)
    (app_name : string) (app_settings : option app_settings)
    (scheme palette : string) : M unit :=
  let app_settings :=
    match app_settings with
    | Some s => s
    | None => default no_settings (PyDict.get (app_registry self) app_name)
    end in
  match config_dir app_settings, config_map app_settings with
  | Some _, Some _ => print (MsgConfigConflict app_name)
  | _, _ =>
      d ← read_disk;
      file_map ← lift (get_matching_configs self d app_name scheme palette);
      to_symlink ← lift (plan_links env app_settings file_map);
      '(links_succ, links_fail) ←
        apply_links self env app_name scheme palette to_symlink [] [];
      report self app_name links_succ links_fail
  end.

(** The [apps] argument of [update_apps]: the string ["*"] or a list. *)
Inductive apps_arg :=
| AllApps
| TheseApps (names : list string).

(** [update_apps].  Its [else] branch reads the local [app_list] before it
    is assigned, and the loop reads [app_registry], a name bound nowhere
    (the attribute is [self.app_registry]), while building the arguments of
    the first call. *)
Definition update_apps (self : t) (env : environment) (apps : apps_arg)
    (scheme palette : string) : M unit :=
  app_list ← match apps with
             | AllApps => mret (PyDict.keys (app_registry self))
             | TheseApps _ => raise (UnboundLocalError "app_list")
             end;
  match app_list with
  | [] => print MsgNoneRegistered
  | _ =>
      for_each app_list (λ app_name,
        settings ← raise (A := app_settings) (NameError "app_registry");
        update_app_config self env app_name (Some settings) scheme palette)
  end.

End ConfigManager.


(** ** [autoconf/set_theme.py] *)

Module SetTheme.

(** The parsed command line: [args.palette], [args.scheme], [args.app]. *)
Record args := {
  arg_palette : string;
  arg_scheme : string;
  arg_app : string
}.

(** An entry of [app_registry.toml] as the loop reads it, [config_dir] with
    its [~] expanded; [refresh_cmd] may be absent. *)
Record registered := {
  reg_config_dir : path;
  reg_config_file : string;
  reg_supported_oses : list string;
  reg_external_theme : bool;
  reg_refresh_cmd : option string
}.

(** The host: [os.uname().sysname], the directory of the running module, and
    whether a refresh command exits with status zero. *)
Record host := {
  osname : string;
  basepath : path;
  refresh_succeeds : string → bool
}.

Definition links := PyDict.dict string (string * string).

(** The body of the loop over [app_list], with the two dictionaries it
    fills. *)
Definition link_app (h : host) (a : args) (app_name : string)
    (app_settings : registered) (acc : links * links) : M (links * links) :=
  let '(links_succ, links_fail) := acc in
  let config_dir := reg_config_dir app_settings in
  let config_file := reg_config_file app_settings in
  let config_path := child config_dir config_file in
  if negb (bool_decide (osname h ∈ reg_supported_oses app_settings)) then
    print (MsgUnsupportedOS (osname h) app_name);; mret acc
  else
    let from_conf_path :=
      if reg_external_theme app_settings then child config_dir "current-theme.conf"
      else config_path in
    let to_conf_path :=
      if reg_external_theme app_settings then
        basepath h ++ ["themes"; arg_palette a; "apps"; app_name; "generated";
                       arg_scheme a +:+ ".conf"]
      else
        child config_dir
          (app_name +:+ "-" +:+ arg_palette a +:+ "-" +:+ arg_scheme a
           +:+ PyStr.suffix (name_of config_path)) in
    let names := (name_of from_conf_path, name_of to_conf_path) in
    d ← read_disk;
    if negb (FS.exists_ d to_conf_path) then
      print (MsgMissingTarget to_conf_path);;
      mret (links_succ, PyDict.set links_fail app_name names)
    else if FS.exists_ d from_conf_path && negb (FS.is_symlink d from_conf_path) then
      print (MsgOriginNotSymlink from_conf_path);;
      mret (links_succ, PyDict.set links_fail app_name names)
    else
      syscall (λ d, FS.unlink d from_conf_path);;
      print (MsgLinking from_conf_path to_conf_path);;
      match reg_refresh_cmd app_settings with
      | Some cmd =>
          print (ExecRefresh cmd);;
          if refresh_succeeds h cmd then mret tt
          else raise (CalledProcessError [cmd])
      | None => mret tt
      end;;
      syscall (λ d, FS.symlink_to d from_conf_path to_conf_path);;
      mret (PyDict.set links_succ app_name names, links_fail).

Fixpoint link_apps (h : host) (a : args)
    (app_list : list (string * registered)) (acc : links * links)
  : M (links * links) :=
  match app_list with
  | [] => mret acc
  | (app_name, app_settings) :: rest =>
      acc' ← link_app h a app_name app_settings acc;
      link_apps h a rest acc'
  end.

Definition update_theme_settings (h : host) (a : args)
    (app_registry : PyDict.dict string registered) : M unit :=
  if negb (PyDict.mem app_registry (arg_app a))
     && negb (bool_decide (arg_app a = "*")) then
    print (MsgNotRegistered (arg_app a))
  else
    app_list ← (if decide (arg_app a = "*") then mret app_registry
                else match PyDict.get app_registry (arg_app a) with
                     | Some s => mret [(arg_app a, s)]
                     | None => raise (KeyError (arg_app a))
                     end);
    '(links_succ, links_fail) ← link_apps h a app_list ([], []);
    ConfigManager.for_each links_succ (λ '(app, (from_p, to_p)),
      print (MsgThemeLinked app from_p to_p));;
    ConfigManager.for_each links_fail (λ '(app, (from_p, to_p)),
      print (MsgThemeFailed app from_p to_p)).

End SetTheme.

(** ** Vocabulary of the specification *)

(** [q] is a file of the tier [subdir] ([generated] or [user]) of an
    application. *)
Definition in_tier (self : ConfigManager.t) (d : FS.t) (app_name : string)
    (subdir : string) (q : path) : Prop :=
  let app_dir := child (ConfigManager.apps_dir self) app_name in
  FS.is_dir d (child app_dir subdir) = true ∧
  q ∈ FS.iterdir d (child app_dir subdir).

(** A candidate of the matcher: a catalogued file whose name splits at its
    first dot into the theme prefix [theme] and the logical name [conf]. *)
Definition candidate (catalog : PyDict.dict string path)
    (theme conf : string) (full : path) : Prop :=
  ∃ pathname rest,
    PyDict.get catalog pathname = Some full ∧
    PyStr.split PyStr.dot pathname = theme :: rest ∧
    rest ≠ [] ∧ PyStr.join "." rest = conf.

(** A file name with at least two dot-separated components. *)
Definition well_formed_name (pathname : string) : Prop :=
  (2 ≤ List.length (PyStr.split PyStr.dot pathname))%nat.

(** The logical name of a file name: everything after its first dot. *)
Definition logical_name (pathname : string) : string :=
  PyStr.join "." (tl (PyStr.split PyStr.dot pathname)).

(** The catalog invariant in the words of the specification: at most one
    path per logical name. *)
Definition one_path_per_logical_name (catalog : PyDict.dict string path) : Prop :=
  ∀ n1 p1 n2 p2,
    (n1, p1) ∈ catalog → (n2, p2) ∈ catalog →
    logical_name n1 = logical_name n2 → p1 = p2.

(** [p] is a regular file or a directory in its own right: something the
    link loop did not create. *)
Definition foreign (d : FS.t) (p : path) : bool :=
  match d !! p with
  | Some (File _) | Some Dir => true
  | _ => false
  end.

Definition is_file (n : option node) : bool :=
  match n with Some (File _) => true | _ => false end.

(** The directories on the way to [p], the root first: its proper
    prefixes. *)
Definition ancestors (p : path) : list path :=
  map (λ n, take n p) (seq 0 (List.length p)).

(** [p] names its own place, whatever links are set at [places]: no
    directory on the way to it is a symbolic link or one of [places].  (The
    disk is keyed by such paths; a path through a linked directory is
    another name for a place inside the directory linked to.) *)
Definition direct (d : FS.t) (places : list path) (p : path) : bool :=
  bool_decide (p ≠ [])
  && forallb (λ q, negb (is_link (d !! q)) && bool_decide (q ∉ places)) (ancestors p).

(** The places [stat] looks at from [p]: [p] itself and the targets of the
    links it follows. *)
Fixpoint trail (fuel : nat) (d : FS.t) (p : path) : list path :=
  match fuel with
  | O => []
  | S fuel' =>
      p :: match d !! p with
           | Some (Symlink target) => trail fuel' d target
           | _ => []
           end
  end.

(** The directories of an application that the manager reads. *)
Definition read_dirs (self : ConfigManager.t) (app_name : string) : list path :=
  let app_dir := child (ConfigManager.apps_dir self) app_name in
  [child app_dir "generated"; child app_dir "user"; child app_dir "call"].

(** A plan is settled on a disk when the links it sets change nothing of
    what the procedure reads: no internal file is, or is reached through, a
    link place of the plan; every link place is reached through real
    directories, none of them a link place; no link sits at or directly
    inside a directory the manager reads, and none of these directories is
    itself a link. *)
Definition settled_op (self : ConfigManager.t) (app_name : string) (d : FS.t)
    (places : list path) (op : link_op) : bool :=
  let '(from_path, to_path) := op in
  forallb (λ q, bool_decide (q ∉ places)) (trail 41 d to_path)
  && direct d places from_path
  && bool_decide (from_path ∉ read_dirs self app_name)
  && bool_decide (parent from_path ∉ read_dirs self app_name).

Definition settled (self : ConfigManager.t) (app_name : string) (d : FS.t)
    (ops : list link_op) : bool :=
  forallb (settled_op self app_name d (ops.*1)) ops
  && forallb (λ p, negb (is_link (d !! p))) (read_dirs self app_name).



(** The planning half of [update_app_config]: the matched files turned into
    link operations. *)
Definition planned (self : ConfigManager.t) (env : environment)
    (app_name : string) (settings : app_settings) (scheme palette : string)
    (d : FS.t) : result (list link_op) :=
  match ConfigManager.get_matching_configs self d app_name scheme palette with
  | Ok file_map => ConfigManager.plan_links env settings file_map
  | Raise e => Raise e
  end.

(** The settings [update_app_config] works with: the ones given, else the
    registered ones, else none. *)
Definition settings_in_force (self : ConfigManager.t) (app_name : string)
    (given : option app_settings) : app_settings :=
  match given with
  | Some s => s
  | None => default no_settings (PyDict.get (ConfigManager.app_registry self) app_name)
  end.

(** Settings with at most one of the two target forms. *)
Definition unambiguous (s : app_settings) : Prop :=
  config_dir s = None ∨ config_map s = None.

(** The scripts launched, in order, as the output shows them. *)
Definition executed (out : list event) : list path :=
  omap (λ e, match e with ExecScript script => Some script | _ => None end) out.

(** The [call/] directory of an application. *)
Definition call_dir (self : ConfigManager.t) (app_name : string) : path :=
  child (child (ConfigManager.apps_dir self) app_name) "call".


(** The plan computed on a disk is settled there (vacuously so when the
    planning raises). *)
Definition settled_plan (self : ConfigManager.t) (env : environment)
    (app_name : string) (settings : app_settings) (scheme palette : string)
    (d : FS.t) : bool :=
  match planned self env app_name settings scheme palette d with
  | Ok ops => settled self app_name d ops
  | Raise _ => true
  end.

(** ** Auxiliary functions of the proofs *)

(** A computation that neither reads nor writes the disk. *)
Definition pure {A} (c : M A) : Prop :=
  ∃ v out, ∀ d, c d = (v, d, out).







(** The triple the first loop of [get_matching_configs] stores for a name. *)
Definition file_part (pathname : string) : string * string * string :=
  (hd EmptyString (PyStr.split PyStr.dot pathname), logical_name pathname, pathname).

(** What one pass over [file_parts] leaves under the key [conf], and what
    the passes for a list of prefixes leave there. *)
Definition pass_value (catalog : PyDict.dict string path)
    (file_parts : list (string * string * string)) (conf theme_prefix : string)
    (before : option path) : option path :=
  fold_left (λ acc '(theme_part, conf_part, pathname),
               if decide (theme_part = theme_prefix ∧ conf_part = conf)
               then PyDict.get catalog pathname else acc)
            file_parts before.

Definition passes_value (catalog : PyDict.dict string path)
    (file_parts : list (string * string * string)) (conf : string)
    (prefixes : list string) (before : option path) : option path :=
  fold_left (λ acc theme_prefix, pass_value catalog file_parts conf theme_prefix acc)
            prefixes before.

(** ** Concrete inputs used by the examples *)

Module Sample.

Definition manager : ConfigManager.t :=
  {| ConfigManager.self_config_dir := ["cfg"]; ConfigManager.app_registry := [] |}.

Definition kitty : path := ["cfg"; "apps"; "kitty"].

(** The skeleton of a configuration directory with one application. *)
Definition skeleton : list (path * node) :=
  [ (["cfg"], Dir); (["cfg"; "apps"], Dir); (kitty, Dir);
    (kitty ++ ["generated"], Dir); (kitty ++ ["user"], Dir); (["ext"], Dir) ].

(** The scenario of the specification: a generic generated file and a
    palette-specific user file for the same logical name. *)
Definition disk_override : FS.t :=
  list_to_map (skeleton ++
    [ (kitty ++ ["generated"; "any-any.conf.ini"], File "generic");
      (kitty ++ ["user"; "dark-any.conf.ini"], File "dark") ]).

(** An exact candidate and a generic one for [conf.ini], and a user file
    whose name has no dot. *)
Definition disk_exact : FS.t :=
  list_to_map (skeleton ++
    [ (kitty ++ ["generated"; "any-any.conf.ini"], File "generic");
      (kitty ++ ["user"; "dark-light.conf.ini"], File "exact");
      (kitty ++ ["user"; "notes"], File "to do") ]).

(** A user file whose name has no dot next to a well-formed generated one. *)
Definition disk_malformed : FS.t :=
  list_to_map (skeleton ++
    [ (kitty ++ ["generated"; "any-any.conf.ini"], File "generic");
      (kitty ++ ["user"; "README"], File "notes") ]).

(** A foreign regular file where the link for [conf.ini] would go. *)
Definition disk_foreign : FS.t :=
  list_to_map (skeleton ++
    [ (kitty ++ ["generated"; "any-any.conf.ini"], File "generic");
      (["ext"; "conf.ini"], File "mine") ]).

(** The same, but the only candidate is a dangling link in [user/]. *)
Definition disk_ghost : FS.t :=
  list_to_map (skeleton ++
    [ (kitty ++ ["user"; "dark-any.conf.ini"], Symlink ["nowhere"]);
      (["ext"; "conf.ini"], File "mine") ]).

(** Two generated files, no [call/] directory. *)
Definition disk_two : FS.t :=
  list_to_map (skeleton ++
    [ (kitty ++ ["generated"; "any-any.conf.ini"], File "generic");
      (kitty ++ ["generated"; "any-any.theme.conf"], File "colours") ]).

(** The same with a [call/] directory holding one reload script. *)
Definition disk_scripts : FS.t :=
  list_to_map (skeleton ++
    [ (kitty ++ ["generated"; "any-any.conf.ini"], File "generic");
      (kitty ++ ["generated"; "any-any.theme.conf"], File "colours");
      (kitty ++ ["call"], Dir);
      (kitty ++ ["call"; "any-any.sh"], File "reload") ]).

(** A generated file that is a link into the target directory, to the place
    where the link for the other file goes. *)
Definition disk_chain : FS.t :=
  list_to_map (skeleton ++
    [ (kitty ++ ["generated"; "any-any.a.conf"], Symlink ["ext"; "b.conf"]);
      (kitty ++ ["user"; "any-any.b.conf"], File "b");
      (kitty ++ ["call"], Dir) ]).

Definition op_conf : link_op :=
  (["ext"; "conf.ini"], kitty ++ ["generated"; "any-any.conf.ini"]).

Definition op_theme : link_op :=
  (["ext"; "theme.conf"], kitty ++ ["generated"; "any-any.theme.conf"]).

Definition op_foreign : link_op :=
  (["ext"; "conf.ini"], kitty ++ ["generated"; "any-any.conf.ini"]).

Definition op_ghost : link_op :=
  (["ext"; "conf.ini"], kitty ++ ["user"; "dark-any.conf.ini"]).

Definition env : environment :=
  {| absolute_path := id; script_succeeds := λ _, true; style_has_reset := true |}.

(** [colorama.Style] as published: [BRIGHT], [DIM], [NORMAL], [RESET_ALL]. *)
Definition env_colorama : environment :=
  {| absolute_path := id; script_succeeds := λ _, true; style_has_reset := false |}.

Definition settings_dir : app_settings :=
  {| config_dir := Some ["ext"]; config_map := None |}.

Definition settings_map : app_settings :=
  {| config_dir := None;
     config_map := Some {[ "conf.ini" := ["ext"; "kitty.ini"] ]} |}.

Definition settings_both : app_settings :=
  {| config_dir := Some ["ext"];
     config_map := Some {[ "conf.ini" := ["ext"; "kitty.ini"] ]} |}.


(** A manager whose registry holds an application with both target forms
    and one with a target directory. *)
Definition manager_registry : ConfigManager.t :=
  {| ConfigManager.self_config_dir := ["cfg"];
     ConfigManager.app_registry := [("kitty", settings_both); ("vim", settings_dir)] |}.

(** The update of [kitty] into [ext/] for the request [(any, any)]. *)
Definition update_any : M unit :=
  ConfigManager.update_app_config manager env "kitty" (Some settings_dir) "any" "any".

End Sample.

(** ** [ConfigManager.__init__], [_check_paths] and [_check_registry] *)

Module Construct.

(** What the constructor takes from outside: [util.xdg_config_path] (the
    module [autoconf.util] is not part of the sources at hand) and
    [tomllib.load] on the registry file, reduced to what the manager reads
    of the document: an exception, no [app] key ([None]), or the table under
    [app]. *)
Record platform := {
  xdg_config_path : path;
  load_toml : FS.t → path → result (option (PyDict.dict string app_settings))
}.

(** The two warnings [_check_registry] prints. *)
Inductive notice :=
| NoRegistryFile (registry_path : path)
| NoAppKey.

(** [list(p.iterdir())]: listing what is not a directory raises. *)
Definition listdir (d : FS.t) (p : path) : result (list path) :=
  if FS.is_dir d p then Ok (FS.iterdir d p)
  else if FS.exists_ d p then Raise (NotADirectoryError p)
  else Raise (FileNotFoundError p).

Definition check_paths (self : ConfigManager.t) (d : FS.t) : result unit :=
  if negb (FS.exists_ d (ConfigManager.self_config_dir self)) then Raise ValueError
  else if negb (FS.exists_ d (ConfigManager.apps_dir self)) then Raise ValueError
  else match listdir d (ConfigManager.apps_dir self) with
       | Raise e => Raise e
       | Ok [] => Raise ValueError
       | Ok (_ :: _) => Ok tt
       end.

Definition with_registry (self : ConfigManager.t)
    (registry : PyDict.dict string app_settings) : ConfigManager.t :=
  {| ConfigManager.self_config_dir := ConfigManager.self_config_dir self;
     ConfigManager.app_registry := registry |}.

Definition check_registry (pf : platform) (self : ConfigManager.t) (d : FS.t)
  : result ConfigManager.t * list notice :=
  let registry_path := child (ConfigManager.self_config_dir self) "app_registry.toml" in
  if negb (FS.exists_ d registry_path) then
    (Ok (with_registry self []), [NoRegistryFile registry_path])
  else
    match load_toml pf d registry_path with
    | Raise e => (Raise e, [])
    | Ok None => (Ok (with_registry self []), [NoAppKey])
    | Ok (Some app) => (Ok (with_registry self app), [])
    end.

(** [ConfigManager(config_dir, disable_registry)] *)
Definition init (env : environment) (pf : platform) (config_dir : option path)
    (disable_registry : bool) (d : FS.t) : result ConfigManager.t * list notice :=
  let config_dir :=
    match config_dir with
    | None => xdg_config_path pf
    | Some p => p
    end in
  let self :=
    {| ConfigManager.self_config_dir := absolute_path env config_dir;
       ConfigManager.app_registry := [] |} in
  match check_paths self d with
  | Raise e => (Raise e, [])
  | Ok _ => if disable_registry then (Ok self, []) else check_registry pf self d
  end.

End Construct.

(** ** [os_scheme_settings] and the entry point of [set_theme.py] *)

Module SchemeSettings.

(** [s.startswith(prefix)], with what follows the prefix. *)
Fixpoint strip_prefix (prefix s : string) : option string :=
  match prefix, s with
  | EmptyString, _ => Some s
  | String a prefix', String b s' =>
      if Ascii.eqb a b then strip_prefix prefix' s' else None
  | String _ _, EmptyString => None
  end.

(** [cmd.format(scheme=scheme)] for templates whose only field is
    [{scheme}]. *)
Fixpoint format_scheme (template scheme : string) : string :=
  match template with
  | EmptyString => EmptyString
  | String c rest =>
      match strip_prefix "{scheme}" template with
      | Some _ =>
          scheme +:+ match rest with
                     | String _ (String _ (String _ (String _ (String _
                         (String _ (String _ after)))))) => format_scheme after scheme
                     | _ => EmptyString
                     end
      | None => String c (format_scheme rest scheme)
      end
  end.

Definition is_space (c : ascii) : bool :=
  Ascii.eqb c " "%char || Ascii.eqb c "009"%char || Ascii.eqb c "010"%char
  || Ascii.eqb c "011"%char || Ascii.eqb c "012"%char || Ascii.eqb c "013"%char
  || Ascii.eqb c "028"%char || Ascii.eqb c "029"%char || Ascii.eqb c "030"%char
  || Ascii.eqb c "031"%char.

(** [s.split()]: the words between runs of white space. *)
Fixpoint split_words (s : string) (word : string) : list string :=
  match s with
  | EmptyString => if PyStr.is_empty word then [] else [word]
  | String c rest =>
      if is_space c then
        if PyStr.is_empty word then split_words rest EmptyString
        else word :: split_words rest EmptyString
      else split_words rest (word +:+ String c EmptyString)
  end.

Definition os_cmd_groups : PyDict.dict string (list string) :=
  [ ("Linux",
     ["gsettings set org.gnome.desktop.interface color-scheme 'prefer-{scheme}'"]);
    ("Darwin", []) ].

(** What [subprocess.check_call] on an argument vector can meet: the
    program runs and exits (with status zero or not), or it cannot be
    started at all, [Popen] raising an [OSError] ([FileNotFoundError] when
    the executable is not installed) before anything is launched. *)
Inductive launch :=
| Exited (status_zero : bool)
| NotStarted (e : exn).

(** The loop over [cmd_list]: each command is launched, and the first one
    that cannot be started or exits with a status other than zero raises. *)
Fixpoint run_commands (command_outcome : list string → launch)
    (scheme : string) (cmd_list : list string)
  : result unit * list (list string) :=
  match cmd_list with
  | [] => (Ok tt, [])
  | cmd :: rest =>
      let argv := split_words (format_scheme cmd scheme) EmptyString in
      match command_outcome argv with
      | Exited true =>
          let '(v, launched) := run_commands command_outcome scheme rest in
          (v, argv :: launched)
      | Exited false => (Raise (CalledProcessError argv), [argv])
      | NotStarted e => (Raise e, [])
      end
  end.

(** [os_scheme_settings(scheme)]: its outcome and the commands it launched. *)
Definition os_scheme_settings (sysname : string)
    (command_outcome : list string → launch) (scheme : string)
  : result unit * list (list string) :=
  if negb (bool_decide (scheme ∈ ["light"; "dark"])) then (Ok tt, [])
  else
    let cmd_list := default [] (PyDict.get os_cmd_groups sysname) in
    run_commands command_outcome scheme cmd_list.

(** The [__main__] block of [set_theme.py]: the global switch, then the
    links. *)
Definition main (h : SetTheme.host) (command_outcome : list string → launch)
    (a : SetTheme.args) (app_registry : PyDict.dict string SetTheme.registered)
    (d : FS.t) : result unit * FS.t * list event * list (list string) :=
  match os_scheme_settings (SetTheme.osname h) command_outcome (SetTheme.arg_scheme a) with
  | (Raise e, launched) => (Raise e, d, [], launched)
  | (Ok _, launched) =>
      (SetTheme.update_theme_settings h a app_registry d, launched)
  end.

End SchemeSettings.

(** ** More vocabulary *)

(** A string without a dot. *)
Definition dotless (s : string) : Prop :=
  PyStr.split PyStr.dot s = [s].

(** The link that [link_app] of [set_theme.py] works on for an application:
    where it is made and where it points. *)
Definition theme_from (s : SetTheme.registered) : path :=
  if SetTheme.reg_external_theme s
  then child (SetTheme.reg_config_dir s) "current-theme.conf"
  else child (SetTheme.reg_config_dir s) (SetTheme.reg_config_file s).

Definition theme_to (h : SetTheme.host) (a : SetTheme.args) (app_name : string)
    (s : SetTheme.registered) : path :=
  if SetTheme.reg_external_theme s then
    SetTheme.basepath h ++ ["themes"; SetTheme.arg_palette a; "apps"; app_name; "generated";
                            SetTheme.arg_scheme a +:+ ".conf"]
  else
    child (SetTheme.reg_config_dir s)
      (app_name +:+ "-" +:+ SetTheme.arg_palette a +:+ "-" +:+ SetTheme.arg_scheme a
       +:+ PyStr.suffix (name_of (child (SetTheme.reg_config_dir s)
                                        (SetTheme.reg_config_file s)))).

(** The directory the constructor settles on, and the layout it asks of
    it: the directory exists and its [apps/] is a directory with an entry. *)
Definition chosen_dir (env : environment) (pf : Construct.platform)
    (given : option path) : path :=
  absolute_path env (default (Construct.xdg_config_path pf) given).

Definition populated (d : FS.t) (c : path) : Prop :=
  FS.exists_ d c = true ∧
  FS.is_dir d (child c "apps") = true ∧
  FS.iterdir d (child c "apps") ≠ [].

(** The argument vector of the GNOME colour-scheme command: the quotes of
    the template are part of the last argument. *)
Definition gsettings_argv (scheme : string) : list string :=
  ["gsettings"; "set"; "org.gnome.desktop.interface"; "color-scheme";
   "'prefer-" +:+ scheme +:+ "'"].

(** ** More concrete inputs *)

Module Cases.

(** Two generated files, an empty [call/] directory, and a foreign file
    where the link for [conf.ini] would go. *)
Definition disk_mixed : FS.t :=
  list_to_map (Sample.skeleton ++
    [ (Sample.kitty ++ ["generated"; "any-any.conf.ini"], File "generic");
      (Sample.kitty ++ ["generated"; "any-any.theme.conf"], File "colours");
      (Sample.kitty ++ ["call"], Dir);
      (["ext"; "conf.ini"], File "mine") ]).

(** A regular file [ext/sub] under which a link is asked for. *)
Definition disk_file_parent : FS.t :=
  list_to_map (Sample.skeleton ++
    [ (Sample.kitty ++ ["generated"; "any-any.conf.ini"], File "generic");
      (["ext"; "sub"], File "not a directory") ]).

(** A configuration directory whose application has neither [generated/]
    nor [user/]. *)
Definition disk_bare : FS.t :=
  list_to_map [ (["cfg"], Dir); (["cfg"; "apps"], Dir); (Sample.kitty, Dir); (["ext"], Dir) ].

Definition settings_none : app_settings := no_settings.

(** An environment in which every reload script exits with an error. *)
Definition env_failing : environment :=
  {| absolute_path := id; script_succeeds := λ _, false; style_has_reset := true |}.

(** A configuration directory whose [apps] is a regular file. *)
Definition disk_apps_file : FS.t :=
  list_to_map [ (["cfg"], Dir); (["cfg"; "apps"], File "") ].

(** A platform whose registry document has no [app] table. *)
Definition platform_keyless : Construct.platform :=
  {| Construct.xdg_config_path := ["cfg"];
     Construct.load_toml := λ _ _, Ok None |}.

(** [set_theme.py] on a Linux host whose refresh commands fail, for an
    application with an external theme file and a link from an earlier
    run. *)
Definition host_failing : SetTheme.host :=
  {| SetTheme.osname := "Linux"; SetTheme.basepath := ["repo"];
     SetTheme.refresh_succeeds := λ _, false |}.

Definition theme_args : SetTheme.args :=
  {| SetTheme.arg_palette := "tone"; SetTheme.arg_scheme := "dark";
     SetTheme.arg_app := "kitty" |}.

Definition kitty_entry : SetTheme.registered :=
  {| SetTheme.reg_config_dir := ["home"; "kitty"];
     SetTheme.reg_config_file := "kitty.conf";
     SetTheme.reg_supported_oses := ["Linux"; "Darwin"];
     SetTheme.reg_external_theme := true;
     SetTheme.reg_refresh_cmd := Some "kill -SIGUSR1 kitty" |}.

Definition theme_light : path :=
  ["repo"; "themes"; "tone"; "apps"; "kitty"; "generated"; "light.conf"].
Definition theme_dark : path :=
  ["repo"; "themes"; "tone"; "apps"; "kitty"; "generated"; "dark.conf"].

Definition disk_theme : FS.t :=
  list_to_map [ (["home"], Dir); (["home"; "kitty"], Dir);
                (["home"; "kitty"; "current-theme.conf"], Symlink theme_light);
                (theme_light, File "light"); (theme_dark, File "dark") ].

End Cases.

(** * Properties *)

Import ConfigManager.

(** ** Strings *)

Section string_facts.
Import PyStr.

Lemma split_nonempty sep s : split sep s ≠ [].
Proof. destruct s as [|c s]; simpl; [done|]. destruct (Ascii.eqb c sep); [done|]. by destruct (split sep s). Qed.

(** Joining the pieces back with the separator returns the string. *)
Lemma join_split s : join "." (split dot s) = s.
Proof.
  induction s as [|c s IH]; [done|]. simpl.
  destruct (Ascii.eqb_spec c dot) as [->|Hc].
  - pose proof (split_nonempty dot s) as Hne.
    destruct (split dot s) as [|w ws] eqn:E; [done|]. simpl in *. by rewrite IH.
  - destruct (split dot s) as [|w ws] eqn:E; [by destruct (split_nonempty dot s)|].
    simpl in *. destruct ws; simpl in *; by rewrite <- IH.
Qed.

Lemma split_inj s1 s2 : split dot s1 = split dot s2 → s1 = s2.
Proof. intros E. by rewrite <- (join_split s1), <- (join_split s2), E. Qed.

End string_facts.

(** ** Dictionaries *)

Section dict_facts.
Context {K V : Type} `{EqDecision K}.
Implicit Types (d : PyDict.dict K V) (k : K) (v : V).
Import PyDict.

Lemma get_set d k k' v :
  get (set d k v) k' = if decide (k = k') then Some v else get d k'.
Proof.
  induction d as [|[k0 v0] d IH]; simpl.
  - by destruct (decide (k = k')).
  - destruct (decide (k0 = k)) as [->|Hne]; simpl.
    + destruct (decide (k = k')); [done|]. done.
    + destruct (decide (k0 = k')) as [->|Hne'].
      * by destruct (decide (k = k')); [subst|].
      * apply IH.
Qed.

Lemma get_set_eq d k v : get (set d k v) k = Some v.
Proof. rewrite get_set. by destruct (decide (k = k)). Qed.

Lemma get_set_ne d k k' v : k ≠ k' → get (set d k v) k' = get d k'.
Proof. intros. rewrite get_set. by destruct (decide (k = k')). Qed.

Lemma get_None d k : get d k = None ↔ k ∉ keys d.
Proof.
  induction d as [|[k0 v0] d IH]; simpl.
  - split; [intros _; apply not_elem_of_nil | done].
  - rewrite not_elem_of_cons. destruct (decide (k0 = k)) as [->|Hne].
    + split; [done | by intros [? _]].
    + rewrite IH. split; [by intros ?; split; [congruence|]|by intros [_ ?]].
Qed.

Lemma get_Some_elem_of d k v : get d k = Some v → (k, v) ∈ d.
Proof.
  induction d as [|[k0 v0] d IH]; simpl; [done|].
  destruct (decide (k0 = k)) as [->|Hne].
  - intros [= ->]. apply elem_of_cons; by left.
  - intros. apply elem_of_cons; right; auto.
Qed.

Lemma get_is_Some d k : is_Some (get d k) ↔ k ∈ keys d.
Proof.
  destruct (get d k) eqn:E.
  - split; [intros _|by eauto]. apply get_Some_elem_of in E.
    apply list_elem_of_fmap. by exists (k, v).
  - apply get_None in E. split; [by intros [? ?]|done].
Qed.

Lemma elem_of_get d k v : NoDup (keys d) → (k, v) ∈ d → get d k = Some v.
Proof.
  induction d as [|[k0 v0] d IH]; simpl; [by intros _ ?%elem_of_nil|].
  intros [Hk0 Hnd]%NoDup_cons [[= -> ->]|Hin]%elem_of_cons.
  - by destruct (decide (k0 = k0)).
  - destruct (decide (k0 = k)) as [->|Hne]; [|by apply IH].
    destruct Hk0. apply list_elem_of_fmap. by exists (k, v).
Qed.

Lemma keys_set d k v :
  keys (set d k v) = if mem d k then keys d else keys d ++ [k].
Proof.
  unfold mem. induction d as [|[k0 v0] d IH]; simpl; [done|].
  destruct (decide (k0 = k)) as [->|Hne]; simpl; [done|].
  rewrite IH. by destruct (get d k).
Qed.

Lemma NoDup_keys_set d k v : NoDup (keys d) → NoDup (keys (set d k v)).
Proof.
  intros Hnd. rewrite keys_set. unfold mem.
  destruct (get d k) eqn:E; [done|].
  apply NoDup_app. split_and!; [done| |apply NoDup_singleton].
  intros x Hx ->%list_elem_of_singleton. by apply get_None in E.
Qed.

Lemma elem_of_keys_set d k k' v :
  k' ∈ keys (set d k v) ↔ k' = k ∨ k' ∈ keys d.
Proof.
  rewrite <- !get_is_Some, get_set.
  destruct (decide (k = k')) as [->|Hne].
  - split; [by left|by eexists].
  - split; [by right|]. intros [->|?]; [done|done].
Qed.

End dict_facts.

(** ** Paths and directory listings *)

Lemma path_split (q : path) : q ≠ [] → q = parent q ++ [name_of q].
Proof. intros. by apply app_removelast_last. Qed.

Lemma child_name (p : path) (n : string) : n ≠ EmptyString → child p n = p ++ [n].
Proof. unfold child. by destruct n. Qed.

Lemma name_of_snoc (p : path) (n : string) : name_of (p ++ [n]) = n.
Proof. unfold name_of. apply last_last. Qed.

Lemma parent_snoc (p : path) (n : string) : parent (p ++ [n]) = p.
Proof. unfold parent. apply removelast_last. Qed.

Lemma elem_of_entries (d : FS.t) (p q : path) :
  q ∈ FS.entries d p ↔ q ≠ [] ∧ parent q = p ∧ is_Some (d !! q).
Proof. unfold FS.entries. rewrite elem_of_filter, elem_of_dom. tauto. Qed.

Lemma elem_of_iterdir (d : FS.t) (p q : path) :
  q ∈ FS.iterdir d p ↔ q ≠ [] ∧ parent q = p ∧ is_Some (d !! q).
Proof. unfold FS.iterdir. by rewrite elem_of_elements, elem_of_entries. Qed.

Lemma NoDup_iterdir (d : FS.t) (p : path) : NoDup (FS.iterdir d p).
Proof. apply NoDup_elements. Qed.

(** Two entries of one directory with the same name are the same entry. *)
Lemma iterdir_name_inj (d : FS.t) (p q1 q2 : path) :
  q1 ∈ FS.iterdir d p → q2 ∈ FS.iterdir d p → name_of q1 = name_of q2 → q1 = q2.
Proof.
  intros (Hn1 & Hp1 & _)%elem_of_iterdir (Hn2 & Hp2 & _)%elem_of_iterdir Hname.
  rewrite (path_split q1 Hn1), (path_split q2 Hn2). congruence.
Qed.

(** ** The catalog: [app_config_map] *)

Section catalog.
Import ConfigManager PyDict.
Variables (self : ConfigManager.t) (d : FS.t) (app_name : string).

Local Abbreviation app_dir := (child (apps_dir self) app_name).
Local Abbreviation in_tier := (in_tier self d app_name).

Lemma in_tier_name_inj subdir q1 q2 :
  in_tier subdir q1 → in_tier subdir q2 → name_of q1 = name_of q2 → q1 = q2.
Proof. intros [_ H1] [_ H2]. by apply iterdir_name_inj with d (child app_dir subdir). Qed.

Lemma scan_fold_keys_NoDup (l : list path) (fm : dict string path) :
  NoDup (keys fm) →
  NoDup (keys (fold_left (λ fm conf_file, set fm (name_of conf_file) conf_file) l fm)).
Proof. revert fm. induction l as [|x l IH]; simpl; [done|]. intros fm H. by apply IH, NoDup_keys_set. Qed.

Lemma scan_fold_miss (l : list path) (fm : dict string path) (n : string) :
  (∀ q, q ∈ l → name_of q ≠ n) →
  get (fold_left (λ fm conf_file, set fm (name_of conf_file) conf_file) l fm) n
  = get fm n.
Proof.
  revert fm. induction l as [|x l IH]; simpl; [done|]. intros fm H.
  rewrite IH.
  - apply get_set_ne, H, elem_of_cons. by left.
  - intros q Hq. apply H, elem_of_cons. by right.
Qed.

Lemma scan_fold_hit (l : list path) (fm : dict string path) (q : path) :
  (∀ q1 q2, q1 ∈ l → q2 ∈ l → name_of q1 = name_of q2 → q1 = q2) →
  q ∈ l →
  get (fold_left (λ fm conf_file, set fm (name_of conf_file) conf_file) l fm)
      (name_of q) = Some q.
Proof.
  revert fm. induction l as [|x l IH]; simpl; [by intros ? ? ?%elem_of_nil|].
  intros fm Hinj Hq.
  destruct (decide (q ∈ l)) as [Hin|Hnin].
  - apply IH; [|done]. intros q1 q2 H1 H2. apply Hinj; apply elem_of_cons; by right.
  - apply elem_of_cons in Hq as [->|?]; [|done].
    rewrite scan_fold_miss; [apply get_set_eq|].
    intros q Hq Hname. apply Hnin.
    assert (q = x) as -> by (apply Hinj; [apply elem_of_cons; by right|apply elem_of_cons; by left|done]).
    done.
Qed.

Lemma scan_subdir_keys_NoDup fm subdir :
  NoDup (keys fm) → NoDup (keys (scan_subdir d app_dir fm subdir)).
Proof. unfold scan_subdir. destruct (FS.is_dir _ _); simpl; [|done]. apply scan_fold_keys_NoDup. Qed.

Lemma scan_subdir_hit fm subdir q :
  in_tier subdir q → get (scan_subdir d app_dir fm subdir) (name_of q) = Some q.
Proof.
  intros [Hdir Hq]. unfold scan_subdir. rewrite Hdir. simpl.
  apply scan_fold_hit; [|done]. intros q1 q2. apply iterdir_name_inj.
Qed.

Lemma scan_subdir_miss fm subdir n :
  (∀ q, in_tier subdir q → name_of q ≠ n) →
  get (scan_subdir d app_dir fm subdir) n = get fm n.
Proof.
  intros H. unfold scan_subdir.
  destruct (FS.is_dir d (child app_dir subdir)) eqn:Hdir; simpl; [|done].
  apply scan_fold_miss. intros q Hq. by apply H.
Qed.

Lemma app_config_map_keys_NoDup : NoDup (keys (app_config_map self d app_name)).
Proof.
  unfold app_config_map; simpl.
  apply scan_subdir_keys_NoDup, scan_subdir_keys_NoDup. unfold keys; simpl. apply NoDup_nil_2.
Qed.

(** Whether a tier holds a file of a given name can be decided by looking
    at the one path it would have. *)
Lemma in_tier_dec subdir n :
  (∃ q, in_tier subdir q ∧ name_of q = n) ∨ (∀ q, in_tier subdir q → name_of q ≠ n).
Proof.
  destruct (FS.is_dir d (child app_dir subdir)) eqn:Hdir;
    [|right; intros q [Hq _]; congruence].
  destruct (decide (child app_dir subdir ++ [n] ∈ FS.iterdir d (child app_dir subdir)))
    as [Hin|Hnin].
  - left. exists (child app_dir subdir ++ [n]). by rewrite name_of_snoc.
  - right. intros q [_ Hq] Hname. apply Hnin.
    pose proof Hq as (Hne & Hpar & _)%elem_of_iterdir.
    replace (child app_dir subdir ++ [n]) with q; [done|].
    rewrite <- Hname, <- Hpar. by apply path_split.
Qed.

(** The lookup of the catalog, by file name: the [user] file of that name
    when there is one, else the [generated] one, else nothing. *)
Lemma app_config_map_get (n : string) (full : path) :
  get (app_config_map self d app_name) n = Some full ↔
    (in_tier "user" full ∧ name_of full = n) ∨
    ((∀ q, in_tier "user" q → name_of q ≠ n) ∧
     in_tier "generated" full ∧ name_of full = n).
Proof.
  unfold app_config_map; simpl.
  destruct (in_tier_dec "user" n) as [(qu & Hu & Hnu)|Hu].
  - subst n. rewrite scan_subdir_hit by done. split.
    + intros [= <-]. by left.
    + intros [[Hf Hn]|[Hno _]]; [|by destruct (Hno qu)].
      f_equal. by apply in_tier_name_inj with "user".
  - rewrite scan_subdir_miss by done.
    destruct (in_tier_dec "generated" n) as [(qg & Hg & Hng)|Hg].
    + subst n. rewrite scan_subdir_hit by done. split.
      * intros [= <-]. by right.
      * intros [[Hf Hn]|(_ & Hf & Hn)]; [by destruct (Hu full)|].
        f_equal. by apply in_tier_name_inj with "generated".
    + rewrite scan_subdir_miss by done. simpl. split; [done|].
      intros [[Hf Hn]|(_ & Hf & Hn)]; [by destruct (Hu full)|by destruct (Hg full)].
Qed.

End catalog.

(** ** The matcher: [get_matching_configs] *)

Section matcher.
Import ConfigManager PyDict.
Variable catalog : dict string path.

Lemma file_parts_of_ok (pathnames : list string) acc :
  Forall well_formed_name pathnames →
  file_parts_of pathnames acc = Ok (acc ++ map file_part pathnames).
Proof.
  revert acc. induction pathnames as [|pn l IH]; intros acc Hwf; simpl.
  - by rewrite app_nil_r.
  - apply Forall_cons in Hwf as [Hpn Hl]. unfold well_formed_name in Hpn.
    destruct (Nat.ltb_spec (List.length (PyStr.split PyStr.dot pn)) 2); [lia|].
    rewrite IH by done. by rewrite <- app_assoc.
Qed.

(** The first malformed name stops the loop with the unbound [filename]. *)
Lemma file_parts_of_malformed (pathnames : list string) acc :
  ¬ Forall well_formed_name pathnames →
  file_parts_of pathnames acc = Raise (NameError "filename").
Proof.
  revert acc. induction pathnames as [|pn l IH]; intros acc Hwf; simpl.
  - destruct Hwf. constructor.
  - destruct (Nat.ltb_spec (List.length (PyStr.split PyStr.dot pn)) 2); [done|].
    apply IH. intros Hl. apply Hwf. by constructor.
Qed.

Lemma match_prefix_spec pre fp m :
  (∀ th cf pn, (th, cf, pn) ∈ fp → is_Some (get catalog pn)) →
  ∃ m', match_prefix catalog pre fp m = Ok m' ∧
        ∀ conf, get m' conf = pass_value catalog fp conf pre (get m conf).
Proof.
  revert m. induction fp as [|[[th cf] pn] fp IH]; intros m Hin; simpl.
  - by exists m.
  - assert (Hin' : ∀ th cf pn, (th, cf, pn) ∈ fp → is_Some (get catalog pn)).
    { intros ??? H. eapply Hin, elem_of_cons. by right. }
    destruct (decide (th = pre)) as [->|Hth].
    + destruct (Hin pre cf pn) as [full Hfull]; [apply elem_of_cons; by left|].
      rewrite Hfull. destruct (IH (set m cf full) Hin') as (m' & -> & Hm').
      exists m'. split; [done|]. intros conf. rewrite Hm'. unfold pass_value. simpl.
      f_equal. rewrite get_set.
      destruct (decide (cf = conf)) as [->|Hcf].
      * by rewrite decide_True.
      * rewrite decide_False; [done|]. by intros [_ ?].
    + destruct (IH m Hin') as (m' & -> & Hm').
      exists m'. split; [done|]. intros conf. rewrite Hm'. unfold pass_value. simpl.
      f_equal. rewrite decide_False; [done|]. by intros [? _].
Qed.

Lemma match_prefixes_spec pres fp m :
  (∀ th cf pn, (th, cf, pn) ∈ fp → is_Some (get catalog pn)) →
  ∃ m', match_prefixes catalog pres fp m = Ok m' ∧
        ∀ conf, get m' conf = passes_value catalog fp conf pres (get m conf).
Proof.
  intros Hin. revert m. induction pres as [|pre pres IH]; intros m; simpl.
  - by exists m.
  - destruct (match_prefix_spec pre fp m Hin) as (m1 & -> & Hm1).
    destruct (IH m1) as (m' & -> & Hm'). exists m'. split; [done|].
    intros conf. by rewrite Hm', Hm1.
Qed.

Lemma pass_value_cases fp conf pre acc :
  (∀ th cf pn, (th, cf, pn) ∈ fp → is_Some (get catalog pn)) →
  (∃ pn full, (pre, conf, pn) ∈ fp ∧ get catalog pn = Some full ∧
              pass_value catalog fp conf pre acc = Some full) ∨
  ((∀ pn, (pre, conf, pn) ∉ fp) ∧ pass_value catalog fp conf pre acc = acc).
Proof.
  induction fp as [|[[th cf] pn] fp IH] using rev_ind; intros Hin.
  - right. split; [intros pn; apply not_elem_of_nil | done].
  - unfold pass_value in *. rewrite fold_left_app. simpl.
    destruct (decide (th = pre ∧ cf = conf)) as [[-> ->]|Hne].
    + left. destruct (Hin pre conf pn) as [full Hfull].
      { apply elem_of_app. right. apply list_elem_of_singleton. done. }
      exists pn, full. split_and!; [|done..].
      apply elem_of_app. right. by apply list_elem_of_singleton.
    + destruct IH as [(pn' & full & Hpn' & Hfull & ->)|[Hno ->]].
      * intros ??? H. eapply Hin, elem_of_app. by left.
      * left. exists pn', full. split_and!; [|done..]. apply elem_of_app. by left.
      * right. split; [|done]. intros pn' [H|H%list_elem_of_singleton]%elem_of_app.
        -- by apply (Hno pn').
        -- injection H as <- <- <-. by apply Hne.
Qed.

Lemma join_cons_ne (w : string) (ws : list string) :
  ws ≠ [] → PyStr.join "." (w :: ws) = w +:+ "." +:+ PyStr.join "." ws.
Proof. by destruct ws. Qed.

(** The theme prefix and the logical name determine the file name. *)
Lemma candidate_pathname pn theme rest :
  PyStr.split PyStr.dot pn = theme :: rest → rest ≠ [] →
  pn = theme +:+ "." +:+ PyStr.join "." rest.
Proof. intros Hs Hr. by rewrite <- (join_split pn), Hs, join_cons_ne. Qed.

Lemma candidate_unique theme conf full full' :
  candidate catalog theme conf full → candidate catalog theme conf full' →
  full = full'.
Proof.
  intros (pn & rest & Hg & Hs & Hr & Hj) (pn' & rest' & Hg' & Hs' & Hr' & Hj').
  assert (pn = pn') as <-.
  { rewrite (candidate_pathname pn theme rest), (candidate_pathname pn' theme rest') by done.
    by rewrite Hj, Hj'. }
  congruence.
Qed.

Lemma file_part_elem_of theme conf pn (l : list string) :
  (theme, conf, pn) ∈ map file_part l ↔
  pn ∈ l ∧ hd EmptyString (PyStr.split PyStr.dot pn) = theme ∧ logical_name pn = conf.
Proof.
  change (map file_part l) with (file_part <$> l). rewrite list_elem_of_fmap.
  unfold file_part. split.
  - intros (pn' & [= -> -> ->] & Hin). done.
  - intros (Hin & <- & <-). by exists pn.
Qed.

Lemma candidate_file_part theme conf full :
  Forall well_formed_name (keys catalog) →
  candidate catalog theme conf full ↔
  ∃ pn, (theme, conf, pn) ∈ map file_part (keys catalog) ∧ get catalog pn = Some full.
Proof.
  intros Hwf. split.
  - intros (pn & rest & Hg & Hs & Hr & Hj). exists pn. split; [|done].
    apply file_part_elem_of. split_and!.
    + apply get_is_Some. by rewrite Hg.
    + by rewrite Hs.
    + unfold logical_name. by rewrite Hs.
  - intros (pn & (Hin & Hth & Hcf)%file_part_elem_of & Hg).
    rewrite Forall_forall in Hwf. specialize (Hwf pn Hin). unfold well_formed_name in Hwf.
    unfold logical_name in Hcf.
    destruct (PyStr.split PyStr.dot pn) as [|a [|b rest]] eqn:Hs; simpl in *; [lia..|].
    subst a. exists pn, (b :: rest). by rewrite Hs.
Qed.

Lemma file_parts_catalogued :
  ∀ th cf pn, (th, cf, pn) ∈ map file_part (keys catalog) → is_Some (get catalog pn).
Proof. intros th cf pn (Hin & _)%file_part_elem_of. by apply get_is_Some. Qed.

(** After the passes for [pres], the key [conf] holds the candidate of the
    last prefix of [pres] that has one. *)
Lemma passes_value_spec pres conf full :
  Forall well_formed_name (keys catalog) →
  passes_value catalog (map file_part (keys catalog)) conf pres None = Some full ↔
  ∃ l1 theme l2,
    pres = l1 ++ theme :: l2 ∧ candidate catalog theme conf full ∧
    ∀ theme' full', theme' ∈ l2 → ¬ candidate catalog theme' conf full'.
Proof.
  intros Hwf. revert full. induction pres as [|q pres IH] using rev_ind; intros full.
  - simpl. split; [done|]. intros (l1 & th & l2 & H & _). by destruct l1.
  - unfold passes_value in *. rewrite fold_left_app. simpl.
    destruct (pass_value_cases (map file_part (keys catalog)) conf q
                (fold_left (λ acc pre, pass_value catalog (map file_part (keys catalog)) conf pre acc) pres None)
                file_parts_catalogued)
      as [(pn & full0 & Hin & Hg & ->)|[Hno ->]].
    + assert (Hc0 : candidate catalog q conf full0).
      { apply candidate_file_part; [done|]. by exists pn. }
      split.
      * intros [= <-]. exists pres, q, []. split_and!; [done..|].
        intros ?? []%elem_of_nil.
      * intros (l1 & th & l2 & Heq & Hc & Hnone). f_equal.
        destruct l2 as [|x l2 _] using rev_ind.
        -- apply app_inj_tail in Heq as [_ Hq]. subst th. by eapply candidate_unique.
        -- rewrite app_comm_cons, app_assoc in Heq. apply app_inj_tail in Heq as [_ Hq].
           subst x. destruct (Hnone q full0); [|done].
           apply elem_of_app. right. by apply list_elem_of_singleton.
    + assert (Hnc : ∀ full', ¬ candidate catalog q conf full').
      { intros full' (pn & Hin & _)%candidate_file_part; [|done]. by apply (Hno pn). }
      rewrite IH. split.
      * intros (l1 & th & l2 & -> & Hc & Hnone). exists l1, th, (l2 ++ [q]).
        split_and!; [by rewrite <- app_assoc|done|].
        intros th' full' [H|H%list_elem_of_singleton]%elem_of_app; [by apply Hnone|].
        subst th'. apply Hnc.
      * intros (l1 & th & l2 & Heq & Hc & Hnone).
        destruct l2 as [|x l2 _] using rev_ind.
        -- apply app_inj_tail in Heq as [_ Hq]. subst th. by destruct (Hnc full).
        -- rewrite app_comm_cons, app_assoc in Heq. apply app_inj_tail in Heq as [Hp Hq].
           subst x pres. exists l1, th, l2. split_and!; [done..|].
           intros th' full' H. apply Hnone, elem_of_app. by left.
Qed.

End matcher.

Section matcher_claims.
Import ConfigManager PyDict.

(** Specificity of the matcher where no name is malformed.  For every
    catalog of well-formed file names and every request, [get_matching_configs] returns a map in which a
    logical name [conf] is bound to [full] exactly when [full] is the
    candidate of the last prefix of the ladder
    [any-any; any-<scheme>; <palette>-any; <palette>-<scheme>] that has a
    candidate for [conf].  In particular an exact [<palette>-<scheme>]
    candidate is always the one selected, and a [<palette>-any] candidate is
    selected whenever there is no exact one (so it beats [any-<scheme>]). *)
Theorem get_matching_configs_most_specific
    (self : ConfigManager.t) (d : FS.t) (app_name scheme palette : string) :
  let catalog := app_config_map self d app_name in
  let s := resolve_scheme scheme in
  let p := resolve_palette palette in
  Forall well_formed_name (keys catalog) →
  ∃ m, get_matching_configs self d app_name scheme palette = Ok m ∧
    (∀ conf full,
        get m conf = Some full ↔
        ∃ l1 theme l2,
          theme_prefixes s p = l1 ++ theme :: l2 ∧
          candidate catalog theme conf full ∧
          ∀ theme' full', theme' ∈ l2 → ¬ candidate catalog theme' conf full') ∧
    (∀ conf full,
        candidate catalog (p +:+ "-" +:+ s) conf full → get m conf = Some full) ∧
    (∀ conf full,
        candidate catalog (p +:+ "-any") conf full →
        (∀ full', ¬ candidate catalog (p +:+ "-" +:+ s) conf full') →
        get m conf = Some full).
Proof.
  intros catalog s p Hwf. unfold get_matching_configs. fold catalog s p.
  rewrite file_parts_of_ok by done. simpl app.
  destruct (match_prefixes_spec catalog (theme_prefixes s p)
              (map file_part (keys catalog)) [] (file_parts_catalogued catalog))
    as (m & -> & Hm).
  exists m. split; [done|].
  assert (Hspec : ∀ conf full,
    get m conf = Some full ↔
    ∃ l1 theme l2,
      theme_prefixes s p = l1 ++ theme :: l2 ∧ candidate catalog theme conf full ∧
      ∀ theme' full', theme' ∈ l2 → ¬ candidate catalog theme' conf full').
  { intros conf full. rewrite Hm. simpl get. by apply passes_value_spec. }
  split_and!; [done| |].
  - intros conf full Hc. apply Hspec.
    exists ["any-any"; "any-" +:+ s; p +:+ "-any"], (p +:+ "-" +:+ s), [].
    split_and!; [done..|]. intros ?? []%elem_of_nil.
  - intros conf full Hc Hno. apply Hspec.
    exists ["any-any"; "any-" +:+ s], (p +:+ "-any"), [p +:+ "-" +:+ s].
    split_and!; [done..|]. intros th full' ->%list_elem_of_singleton. apply Hno.
Qed.

Lemma get_matching_configs_most_specific_witness :
  ∃ m, get_matching_configs Sample.manager Sample.disk_override "kitty" "light" "dark" = Ok m ∧
       get m "conf.ini" = Some (Sample.kitty ++ ["user"; "dark-any.conf.ini"]).
Proof.
  destruct (get_matching_configs_most_specific Sample.manager Sample.disk_override
              "kitty" "light" "dark") as (m & Hm & _ & _ & Htie).
  - vm_compute. repeat constructor.
  - exists m. split; [exact Hm|]. apply Htie.
    + exists "dark-any.conf.ini", ["conf"; "ini"]. vm_compute. split_and!; done.
    + intros full' (pn & rest & Hg%get_Some_elem_of & Hs & _).
      vm_compute in Hg.
      apply elem_of_cons in Hg as [[= -> ->]|Hg]; [by vm_compute in Hs|].
      apply elem_of_cons in Hg as [[= -> ->]|Hg]; [by vm_compute in Hs|].
      by apply elem_of_nil in Hg.
Defined.

(** One file name without a dot anywhere in the catalog makes
    [get_matching_configs] raise, whatever else the catalog holds. *)
Lemma get_matching_configs_malformed
    (self : ConfigManager.t) (d : FS.t) (app_name scheme palette : string) :
  ¬ Forall well_formed_name (keys (app_config_map self d app_name)) →
  get_matching_configs self d app_name scheme palette = Raise (NameError "filename").
Proof. intros H. unfold get_matching_configs. by rewrite file_parts_of_malformed. Qed.

(** C1. The matcher is to select, on every catalog, the most specific
    candidate of each logical name.  On a catalog that holds the exact
    candidate [user/dark-light.conf.ini], the generic
    [generated/any-any.conf.ini] and a file [user/notes], the request for
    the palette [dark] and the scheme [light] resolves nothing:
    [get_matching_configs] raises [NameError] for the unbound name
    [filename] in the diagnostic that was to skip [notes].  With [notes]
    gone from the same disk, the exact candidate is the one selected. *)
Theorem exact_candidate_lost_to_malformed_name :
  candidate (app_config_map Sample.manager Sample.disk_exact "kitty")
    "dark-light" "conf.ini" (Sample.kitty ++ ["user"; "dark-light.conf.ini"]) ∧
  get_matching_configs Sample.manager Sample.disk_exact "kitty" "light" "dark"
    = Raise (NameError "filename") ∧
  ∃ m, get_matching_configs Sample.manager
         (delete (Sample.kitty ++ ["user"; "notes"]) Sample.disk_exact)
         "kitty" "light" "dark" = Ok m ∧
       get m "conf.ini" = Some (Sample.kitty ++ ["user"; "dark-light.conf.ini"]).
Proof.
  split_and!.
  - exists "dark-light.conf.ini", ["conf"; "ini"]. vm_compute. split_and!; done.
  - compute_done.
  - eexists. split; [vm_compute; reflexivity|]. vm_compute. reflexivity.
Qed.

(** C7. A malformed candidate is meant to be skipped with a diagnostic.  On
    a catalog holding [generated/any-any.conf.ini] and [user/README] the
    resolution raises [NameError] for the unbound name [filename] of the
    diagnostic itself: nothing is printed and the well-formed candidate is
    not resolved. *)
Theorem malformed_name_aborts_resolution :
  ¬ well_formed_name "README" ∧
  keys (app_config_map Sample.manager Sample.disk_malformed "kitty")
    = ["any-any.conf.ini"; "README"] ∧
  get_matching_configs Sample.manager Sample.disk_malformed "kitty" "light" "dark"
    = Raise (NameError "filename") ∧
  update_app_config Sample.manager Sample.env "kitty" (Some Sample.settings_dir)
    "light" "dark" Sample.disk_malformed
    = (Raise (NameError "filename"), Sample.disk_malformed, []).
Proof.
  split_and!.
  - unfold well_formed_name. vm_compute. lia.
  - compute_done.
  - compute_done.
  - compute_done.
Qed.

End matcher_claims.

Section catalog_claims.
Import ConfigManager PyDict.

(** C5, as stated, fails: with [generated/any-any.conf.ini] and
    [user/dark-any.conf.ini] the catalog keeps two paths for the logical name
    [conf.ini], the generated one among them although the user tier has a
    file of that logical name. *)
Lemma catalog_keeps_several_paths_per_logical_name :
  ¬ one_path_per_logical_name (app_config_map Sample.manager Sample.disk_override "kitty").
Proof.
  intros H.
  specialize (H "any-any.conf.ini" (Sample.kitty ++ ["generated"; "any-any.conf.ini"])
                "dark-any.conf.ini" (Sample.kitty ++ ["user"; "dark-any.conf.ini"])).
  assert (Sample.kitty ++ ["generated"; "any-any.conf.ini"]
          = Sample.kitty ++ ["user"; "dark-any.conf.ini"]) as Heq; [|by vm_compute in Heq].
  apply H.
  - apply get_Some_elem_of. by vm_compute.
  - apply get_Some_elem_of. by vm_compute.
  - by vm_compute.
Qed.

(** C5, amended.  The catalog is keyed by the full file name (theme prefix
    included): it has no duplicate key, and a file name is bound to the
    [user] file of that name when there is one, else to the [generated] file
    of that name. *)
Theorem app_config_map_user_overrides
    (self : ConfigManager.t) (d : FS.t) (app_name : string) :
  NoDup (keys (app_config_map self d app_name)) ∧
  ∀ filename full,
    get (app_config_map self d app_name) filename = Some full ↔
      (in_tier self d app_name "user" full ∧ name_of full = filename) ∨
      ((∀ q, in_tier self d app_name "user" q → name_of q ≠ filename) ∧
       in_tier self d app_name "generated" full ∧ name_of full = filename).
Proof. split; [apply app_config_map_keys_NoDup | apply app_config_map_get]. Qed.

End catalog_claims.

(** ** The effect monad *)

Lemma bind_eq {A B} (c : M A) (k : A → M B) (d : FS.t) :
  (c ≫= k) d =
  match c d with
  | (Ok a, d1, out1) => match k a d1 with (r, d2, out2) => (r, d2, out1 ++ out2) end
  | (Raise e, d1, out1) => (Raise e, d1, out1)
  end.
Proof. reflexivity. Qed.

Lemma bind_ok {A B} (c : M A) (k : A → M B) d a d1 out1 :
  c d = (Ok a, d1, out1) →
  (c ≫= k) d = (value_of (k a d1), disk_of (k a d1), out1 ++ output_of (k a d1)).
Proof. intros H. rewrite bind_eq, H. by destruct (k a d1) as [[??]?]. Qed.

Lemma bind_raise {A B} (c : M A) (k : A → M B) d e d1 out1 :
  c d = (Raise e, d1, out1) → (c ≫= k) d = (Raise e, d1, out1).
Proof. intros H. by rewrite bind_eq, H. Qed.

(** ** Computations that leave the disk out *)

Section pure.
Lemma pure_ret {A} (a : A) : pure (mret a).
Proof. by exists (Ok a), []. Qed.


Lemma pure_print (e : event) : pure (print e).
Proof. by exists (Ok tt), [e]. Qed.

Lemma pure_lift {A} (r : result A) : pure (lift r).
Proof. by exists r, []. Qed.

Lemma pure_bind {A B} (c : M A) (k : A → M B) :
  pure c → (∀ a, pure (k a)) → pure (c ≫= k).
Proof.
  intros (v & o & Hc) Hk. destruct v as [a|e].
  - destruct (Hk a) as (v' & o' & Hka). exists v', (o ++ o'). intros d.
    by rewrite bind_eq, Hc, Hka.
  - exists (Raise e), o. intros d. by rewrite bind_eq, Hc.
Qed.

Lemma pure_for_each {A} (l : list A) (body : A → M unit) :
  (∀ x, pure (body x)) → pure (for_each l body).
Proof.
  intros Hb. induction l as [|x l IH]; simpl; [apply pure_ret|].
  apply pure_bind; [apply Hb|done].
Qed.


Lemma pure_report self app_name succ fail : pure (report self app_name succ fail).
Proof.
  unfold report. apply pure_bind; [|intros _]; apply pure_for_each; intros [f t];
    (apply pure_bind; [apply pure_lift|intros ?; apply pure_print]).
Qed.

Lemma pure_same {A} (c : M A) (d d' : FS.t) :
  pure c → c d' = (value_of (c d), d', output_of (c d)).
Proof. intros (v & o & H). by rewrite !H. Qed.

End pure.

(** ** One link operation: [link_step] *)

Section link_step.
Import ConfigManager.

Lemma link_step_eq (from_path to_path : path) (d : FS.t) :
  link_step (from_path, to_path) d =
  if negb (FS.exists_ d to_path) then (Ok false, d, [MsgMissingArtifact to_path])
  else if negb (FS.exists_ d (parent from_path)) then
    (Ok false, d, [MsgMissingTargetParent from_path])
  else if FS.exists_ d from_path && negb (FS.is_symlink d from_path) then
    (Ok false, d, [MsgForeignFileConflict from_path])
  else
    match FS.unlink d from_path with
    | Raise e => (Raise e, d, [])
    | Ok d1 =>
        match FS.symlink_to d1 from_path to_path with
        | Raise e => (Raise e, d1, [])
        | Ok d2 => (Ok true, d2, [])
        end
    end.
Proof.
  unfold link_step. rewrite bind_eq. simpl.
  destruct (FS.exists_ d to_path); simpl; [|done].
  destruct (FS.exists_ d (parent from_path)); simpl; [|done].
  destruct (FS.exists_ d from_path && negb (FS.is_symlink d from_path)); simpl; [done|].
  rewrite bind_eq. unfold syscall at 1.
  destruct (FS.unlink d from_path) as [d1|e]; [|done].
  rewrite bind_eq. unfold syscall.
  destruct (FS.symlink_to d1 from_path to_path) as [d2|e]; done.
Qed.

Lemma stat_foreign (d : FS.t) (p : path) :
  foreign d p = true → FS.stat d p = d !! p.
Proof. unfold foreign, FS.stat. simpl. by destruct (d !! p) as [[]|]. Qed.

(** A foreign file or directory at the link place stops the operation. *)
Lemma foreign_conflict (d : FS.t) (p : path) :
  foreign d p = true ↔ FS.exists_ d p && negb (FS.is_symlink d p) = true.
Proof.
  unfold FS.exists_, FS.is_symlink, FS.lstat, foreign, FS.stat. simpl.
  destruct (d !! p) as [[]|]; simpl; try done.
  rewrite andb_false_r. done.
Qed.

(** A failed operation leaves the disk as it was and prints one diagnostic;
    it never raises. *)
Lemma link_step_failed (op : link_op) (d d' : FS.t) (out : list event) :
  link_step op d = (Ok false, d', out) →
  d' = d ∧ ∃ msg, out = [msg] ∧
    msg ∈ [MsgMissingArtifact op.2; MsgMissingTargetParent op.1; MsgForeignFileConflict op.1].
Proof.
  destruct op as [f t]. rewrite link_step_eq. simpl.
  repeat case_match; intros [= <- <-]; (split; [done|]); eexists; (split; [done|]);
    repeat constructor.
Qed.

Lemma stat_dir (d : FS.t) (p : path) : d !! p = Some Dir → FS.stat d p = Some Dir.
Proof. intros H. unfold FS.stat. simpl. by rewrite H. Qed.

(** With the internal file present and the parent a real directory, the
    operation is decided by what sits at the link place alone. *)
Lemma link_step_settled (f t : path) (d : FS.t) :
  FS.exists_ d t = true → d !! parent f = Some Dir →
  link_step (f, t) d =
  if foreign d f then (Ok false, d, [MsgForeignFileConflict f])
  else (Ok true, <[f := Symlink t]> d, []).
Proof.
  intros Ht Hpar. rewrite link_step_eq, Ht. simpl.
  unfold FS.exists_ at 1. rewrite (stat_dir _ _ Hpar). simpl.
  destruct (foreign d f) eqn:Hf.
  - apply foreign_conflict in Hf. by rewrite Hf.
  - assert (Hc : FS.exists_ d f && negb (FS.is_symlink d f) = false).
    { apply not_true_is_false. rewrite <- foreign_conflict. congruence. }
    rewrite Hc. clear Hc.
    assert (Hne : parent f ≠ f).
    { intros Heq. rewrite Heq in Hpar. unfold foreign in Hf. by rewrite Hpar in Hf. }
    unfold FS.unlink, foreign in *. rewrite (stat_dir _ _ Hpar).
    destruct (d !! f) as [[c| |tgt]|] eqn:Hlook; try done.
    + unfold FS.symlink_to. rewrite (stat_dir (delete f d) (parent f))
        by (by rewrite lookup_delete_ne).
      rewrite lookup_delete_eq. by rewrite insert_delete_eq.
    + unfold FS.symlink_to. rewrite (stat_dir _ _ Hpar), Hlook. done.
Qed.

(** Whatever its outcome, an operation touches the disk at its link place
    only, and not even there when a foreign file sits at it. *)
Lemma link_step_frame (f t : path) (d d' : FS.t) (r : result bool) (out : list event) :
  link_step (f, t) d = (r, d', out) →
  (∀ p, p ≠ f → d' !! p = d !! p) ∧ (foreign d f = true → d' = d).
Proof.
  rewrite link_step_eq.
  destruct (negb (FS.exists_ d t)); [by intros [= <- <- <-]|].
  destruct (negb (FS.exists_ d (parent f))); [by intros [= <- <- <-]|].
  destruct (FS.exists_ d f && negb (FS.is_symlink d f)) eqn:Hc; [by intros [= <- <- <-]|].
  assert (Hf : foreign d f = false).
  { apply not_true_is_false. rewrite foreign_conflict. congruence. }
  rewrite Hf. intros H. split; [|done]. intros p Hp. revert H.
  unfold FS.unlink, FS.symlink_to.
  repeat case_match; intros [= <- <- <-]; simplify_eq;
    rewrite ?lookup_insert_ne, ?lookup_delete_ne by done; done.
Qed.

Lemma link_step_keeps_foreign (op : link_op) (d d' : FS.t) (r : result bool)
    (out : list event) (p : path) :
  link_step op d = (r, d', out) → foreign d p = true → d' !! p = d !! p.
Proof.
  destruct op as [f t]. intros [Hne Heq]%link_step_frame Hp.
  destruct (decide (p = f)) as [->|]; [by rewrite Heq|by apply Hne].
Qed.

End link_step.

(** ** The script pass and the report leave the disk alone *)

Section passes.
Import ConfigManager.

Lemma for_each_disk {A} (l : list A) (body : A → M unit) :
  (∀ x d, disk_of (body x d) = d) → ∀ d, disk_of (for_each l body d) = d.
Proof.
  intros Hb. induction l as [|x l IH]; intros d; simpl; [done|].
  rewrite bind_eq. pose proof (Hb x d) as Hx.
  destruct (body x d) as [[[[]|e] d1] o1]; unfold disk_of in Hx; simpl in Hx; subst d1; [|done].
  specialize (IH d). by destruct (for_each l body d) as [[? ?] ?].
Qed.

Lemma run_script_disk env script d : disk_of (run_script env script d) = d.
Proof.
  unfold run_script. rewrite !bind_eq. simpl.
  destruct (script_succeeds env script); simpl; [|done].
  by destruct (style_has_reset env).
Qed.

Lemma run_matching_scripts_disk self env app_name scheme palette d :
  disk_of (run_matching_scripts self env app_name scheme palette d) = d.
Proof.
  unfold run_matching_scripts. rewrite bind_eq. simpl.
  destruct (get_matching_scripts self d app_name scheme palette) as [l|]; simpl; [|done].
  pose proof (for_each_disk l (run_script env) (run_script_disk env) d) as H.
  by destruct (for_each l (run_script env) d) as [[? ?] ?].
Qed.

Lemma report_disk self app_name succ fail d :
  disk_of (report self app_name succ fail d) = d.
Proof.
  unfold report. rewrite bind_eq.
  assert (Hb : ∀ ctor (x : link_op) d,
    disk_of ((let '(from_p, to_p) := x in
              to_p ← lift (relative_to to_p (self_config_dir self));
              print (ctor app_name from_p to_p)) d) = d).
  { intros ctor [f t] d0. rewrite bind_eq. unfold lift.
    by destruct (relative_to t (self_config_dir self)). }
  pose proof (for_each_disk succ _ (Hb MsgLinked) d) as H1.
  destruct (for_each succ _ d) as [[[[]|e] d1] o1]; unfold disk_of in H1; simpl in H1; subst d1; [|done].
  pose proof (for_each_disk fail _ (Hb MsgFailed) d) as H2.
  by destruct (for_each fail _ d) as [[? ?] ?].
Qed.

End passes.

(** ** The link loop: [apply_links] *)

Section link_loop.
Import ConfigManager.
Variables (self : ConfigManager.t) (env : environment) (app_name scheme palette : string).

Local Abbreviation loop := (apply_links self env app_name scheme palette).
Local Abbreviation scripts := (run_matching_scripts self env app_name scheme palette).

Lemma apply_links_cons (op : link_op) (rest succ fail : list link_op) (d : FS.t) :
  loop (op :: rest) succ fail d =
  match link_step op d with
  | (Ok true, d1, o1) =>
      match scripts d1 with
      | (Ok _, d2, o2) =>
          match loop rest (succ ++ [op]) fail d2 with
          | (v, d3, o3) => (v, d3, o1 ++ o2 ++ o3)
          end
      | (Raise e, d2, o2) => (Raise e, d2, o1 ++ o2)
      end
  | (Ok false, d1, o1) =>
      match loop rest succ (fail ++ [op]) d1 with
      | (v, d3, o3) => (v, d3, o1 ++ o3)
      end
  | (Raise e, d1, o1) => (Raise e, d1, o1)
  end.
Proof.
  simpl. rewrite bind_eq.
  destruct (link_step op d) as [[[[]|e] d1] o1]; [| |done].
  - rewrite bind_eq. destruct (scripts d1) as [[[[]|e] d2] o2]; [|done].
    by destruct (loop rest (succ ++ [op]) fail d2) as [[v d3] o3].
  - by destruct (loop rest succ (fail ++ [op]) d1) as [[v d3] o3].
Qed.

(** The loop never touches a foreign file or directory. *)
Lemma apply_links_keeps_foreign (ops succ fail : list link_op) (d : FS.t) (p : path) :
  foreign d p = true → disk_of (loop ops succ fail d) !! p = d !! p.
Proof.
  revert succ fail d. induction ops as [|op ops IH]; intros succ fail d Hp; [done|].
  rewrite apply_links_cons.
  destruct (link_step op d) as [[[[]|e] d1] o1] eqn:Hstep.
  - pose proof (link_step_keeps_foreign _ _ _ _ _ p Hstep Hp) as H1.
    pose proof (run_matching_scripts_disk self env app_name scheme palette d1) as H2.
    destruct (scripts d1) as [[[[]|e] d2] o2]; unfold disk_of in H2; simpl in H2; subst d2;
      [|done].
    specialize (IH (succ ++ [op]) fail d1).
    destruct (loop ops (succ ++ [op]) fail d1) as [[v d3] o3]. unfold disk_of in *. simpl in *.
    rewrite IH; [done|]. unfold foreign in *. by rewrite H1.
  - pose proof (link_step_keeps_foreign _ _ _ _ _ p Hstep Hp) as H1.
    specialize (IH succ (fail ++ [op]) d1).
    destruct (loop ops succ (fail ++ [op]) d1) as [[v d3] o3]. unfold disk_of in *. simpl in *.
    rewrite IH; [done|]. unfold foreign in *. by rewrite H1.
  - by apply (link_step_keeps_foreign _ _ _ _ _ p Hstep).
Qed.

(** An operation that fails is put on [links_fail] and the loop goes on with
    the rest. *)
Lemma apply_links_failed (op : link_op) (rest succ fail : list link_op) (d : FS.t) out :
  link_step op d = (Ok false, d, out) →
  loop (op :: rest) succ fail d =
  (value_of (loop rest succ (fail ++ [op]) d),
   disk_of (loop rest succ (fail ++ [op]) d),
   out ++ output_of (loop rest succ (fail ++ [op]) d)).
Proof.
  intros H. rewrite apply_links_cons, H.
  by destruct (loop rest succ (fail ++ [op]) d) as [[v d3] o3].
Qed.

Lemma update_app_config_keeps_foreign (settings : option app_settings) (d : FS.t) (p : path) :
  foreign d p = true →
  disk_of (update_app_config self env app_name settings scheme palette d) !! p = d !! p.
Proof.
  intros Hp. unfold update_app_config.
  set (s := match settings with Some s => s | None => _ end). clearbody s.
  assert (Hrun :
    disk_of ((d ← read_disk;
              file_map ← lift (get_matching_configs self d app_name scheme palette);
              to_symlink ← lift (plan_links env s file_map);
              '(links_succ, links_fail) ← loop to_symlink [] [];
              report self app_name links_succ links_fail) d) !! p = d !! p).
  { rewrite bind_eq. simpl. rewrite bind_eq. unfold lift at 1.
    destruct (get_matching_configs self d app_name scheme palette) as [fm|e]; [|done].
    rewrite bind_eq. unfold lift at 1.
    destruct (plan_links env s fm) as [ops|e]; [|done].
    rewrite bind_eq.
    pose proof (apply_links_keeps_foreign ops [] [] d p Hp) as H.
    destruct (loop ops [] [] d) as [[[[ls lf]|e] d1] o1]; unfold disk_of in H; simpl in H; [|done].
    pose proof (report_disk self app_name ls lf d1) as H2.
    destruct (report self app_name ls lf d1) as [[v d2] o2]. unfold disk_of in *. simpl in *.
    by subst d2. }
  destruct (config_dir s), (config_map s); done.
Qed.

End link_loop.

(** ** The link loop of [set_theme.py] *)

Section set_theme.
Import SetTheme.

Lemma unlink_frame (d d' : FS.t) (f p : path) :
  FS.unlink d f = Ok d' → p ≠ f → d' !! p = d !! p.
Proof.
  unfold FS.unlink. repeat case_match; intros [= <-] Hne; try done;
    by rewrite lookup_delete_ne.
Qed.

Lemma symlink_to_frame (d d' : FS.t) (f t p : path) :
  FS.symlink_to d f t = Ok d' → p ≠ f → d' !! p = d !! p.
Proof.
  unfold FS.symlink_to. repeat case_match; intros [= <-] Hne; try done;
    by rewrite lookup_insert_ne.
Qed.

(** The legacy loop has the same guard: a foreign file or directory at the
    link place is never unlinked nor replaced. *)
Lemma link_app_keeps_foreign (h : host) (a : args) (app_name : string)
    (s : registered) (acc : links * links) (d : FS.t) (p : path) :
  foreign d p = true → disk_of (link_app h a app_name s acc d) !! p = d !! p.
Proof.
  intros Hp. unfold link_app. destruct acc as [ls lf].
  destruct (negb (bool_decide (osname h ∈ reg_supported_oses s))); [done|].
  set (from := if reg_external_theme s then child _ "current-theme.conf" else _).
  set (to := if reg_external_theme s then _ ++ _ else _).
  rewrite bind_eq. cbn [read_disk].
  destruct (negb (FS.exists_ d to)); [done|].
  destruct (FS.exists_ d from && negb (FS.is_symlink d from)) eqn:Hc; [done|].
  assert (Hne : p ≠ from).
  { intros ->. apply foreign_conflict in Hp. congruence. }
  rewrite bind_eq. unfold syscall at 1.
  destruct (FS.unlink d from) as [d1|e] eqn:Hu; [|done].
  pose proof (unlink_frame _ _ _ p Hu Hne) as H1.
  rewrite bind_eq. cbn [print]. rewrite bind_eq.
  assert (Hrefresh : ∃ v o, ∀ d0,
    match reg_refresh_cmd s with
    | Some cmd =>
        print (ExecRefresh cmd);;
        (if refresh_succeeds h cmd then mret tt else raise (CalledProcessError [cmd]))
    | None => mret tt
    end d0 = (v, d0, o)).
  { destruct (reg_refresh_cmd s) as [cmd|]; [|by exists (Ok tt), []].
    destruct (refresh_succeeds h cmd); [by exists (Ok tt), [ExecRefresh cmd]|].
    by exists (Raise (CalledProcessError [cmd])), [ExecRefresh cmd]. }
  destruct Hrefresh as (v & o & Hr). rewrite Hr. destruct v as [[]|e]; [|done].
  rewrite bind_eq. unfold syscall.
  destruct (FS.symlink_to d1 from to) as [d2|e] eqn:Hs; [|done].
  cbn. by rewrite (symlink_to_frame _ _ _ _ p Hs Hne).
Qed.

Lemma link_apps_keeps_foreign (h : host) (a : args)
    (app_list : list (string * registered)) (acc : links * links) (d : FS.t) (p : path) :
  foreign d p = true → disk_of (link_apps h a app_list acc d) !! p = d !! p.
Proof.
  revert acc d. induction app_list as [|[app_name s] rest IH]; intros acc d Hp; [done|].
  simpl. rewrite bind_eq.
  pose proof (link_app_keeps_foreign h a app_name s acc d p Hp) as H1.
  destruct (link_app h a app_name s acc d) as [[[acc'|e] d1] o1]; [|done].
  unfold disk_of in H1. cbn in H1.
  specialize (IH acc' d1). destruct (link_apps h a rest acc' d1) as [[v d2] o2].
  unfold disk_of in *. cbn in *. rewrite IH; [done|]. unfold foreign in *. by rewrite H1.
Qed.

Lemma update_theme_settings_keeps_foreign (h : host) (a : args)
    (app_registry : PyDict.dict string registered) (d : FS.t) (p : path) :
  foreign d p = true →
  disk_of (update_theme_settings h a app_registry d) !! p = d !! p.
Proof.
  intros Hp. unfold update_theme_settings.
  destruct (negb (PyDict.mem app_registry (arg_app a)) && negb (bool_decide (arg_app a = "*")));
    [done|].
  rewrite bind_eq.
  assert (Hlist : ∃ v, ∀ d0,
    (if decide (arg_app a = "*") then mret app_registry
     else match PyDict.get app_registry (arg_app a) with
          | Some s => mret [(arg_app a, s)]
          | None => raise (KeyError (arg_app a))
          end) d0 = (v, d0, [])).
  { destruct (decide (arg_app a = "*")); [by eexists|].
    destruct (PyDict.get app_registry (arg_app a)); by eexists. }
  destruct Hlist as (v & Hv). rewrite Hv. destruct v as [app_list|e]; [|done].
  rewrite bind_eq.
  pose proof (link_apps_keeps_foreign h a app_list ([], []) d p Hp) as H1.
  destruct (link_apps h a app_list ([], []) d) as [[[[ls lf]|e] d1] o1]; [|done].
  unfold disk_of in H1. cbn in H1.
  match goal with |- context [?c d1] =>
    assert (Hpure : pure c) end.
  { apply pure_bind; [|intros _]; apply pure_for_each; intros [app [f t]]; apply pure_print. }
  destruct Hpure as (v & o & Hpure). rewrite Hpure. done.
Qed.

End set_theme.

Section foreign_files.
Import ConfigManager.

(** C2, as stated, fails: the foreign regular file [ext/conf.ini] is where
    the one planned link would go, and the operation is turned down for the
    missing internal file (the first check of the loop), not as a conflict
    with the foreign file.  The file itself stays. *)
Lemma foreign_file_reported_as_missing_artifact :
  planned Sample.manager Sample.env "kitty" Sample.settings_dir "light" "dark"
    Sample.disk_ghost = Ok [Sample.op_ghost] ∧
  Sample.disk_ghost !! Sample.op_ghost.1 = Some (File "mine") ∧
  link_step Sample.op_ghost Sample.disk_ghost
    = (Ok false, Sample.disk_ghost, [MsgMissingArtifact Sample.op_ghost.2]) ∧
  link_step Sample.op_ghost Sample.disk_ghost
    ≠ (Ok false, Sample.disk_ghost, [MsgForeignFileConflict Sample.op_ghost.1]) ∧
  update_app_config Sample.manager Sample.env "kitty" (Some Sample.settings_dir)
    "light" "dark" Sample.disk_ghost
    = (Ok tt, Sample.disk_ghost,
       [MsgMissingArtifact Sample.op_ghost.2;
        MsgFailed "kitty" ["ext"; "conf.ini"] ["apps"; "kitty"; "user"; "dark-any.conf.ini"]]).
Proof. split_and!; compute_done. Qed.

(** C2, amended.  When a regular file sits at [from_path] and the loop
    comes to the operation [(from_path, to_path)], the operation fails
    without raising and without touching the disk, with one diagnostic, the
    one of the first check that fails: the missing internal file when
    [to_path] does not exist, else the missing parent when the parent of
    [from_path] does not exist, else the foreign-file conflict.  The loop
    puts the operation on [links_fail] and goes on with the rest.  The file
    is still there, unchanged, after the whole [update_app_config], however
    it ends; so it is after [update_theme_settings] of [set_theme.py], whose
    loop has the same guard. *)
Theorem foreign_file_is_never_replaced
    (self : ConfigManager.t) (env : environment) (app_name scheme palette : string)
    (settings : option app_settings) (d : FS.t) (from_path to_path : path)
    (content : string) :
  d !! from_path = Some (File content) →
  let msg :=
    if negb (FS.exists_ d to_path) then MsgMissingArtifact to_path
    else if negb (FS.exists_ d (parent from_path)) then MsgMissingTargetParent from_path
    else MsgForeignFileConflict from_path in
  link_step (from_path, to_path) d = (Ok false, d, [msg]) ∧
  (∀ rest succ fail,
     let continued :=
       apply_links self env app_name scheme palette rest succ
         (fail ++ [(from_path, to_path)]) d in
     apply_links self env app_name scheme palette
       ((from_path, to_path) :: rest) succ fail d
     = (value_of continued, disk_of continued, msg :: output_of continued)) ∧
  disk_of (update_app_config self env app_name settings scheme palette d) !! from_path
    = Some (File content) ∧
  ∀ host args registry,
    disk_of (SetTheme.update_theme_settings host args registry d) !! from_path
    = Some (File content).
Proof.
  intros Hfile msg.
  assert (Hf : foreign d from_path = true) by (unfold foreign; by rewrite Hfile).
  assert (Hstep : link_step (from_path, to_path) d = (Ok false, d, [msg])).
  { assert (Hc := Hf). apply foreign_conflict in Hc. subst msg.
    rewrite link_step_eq, Hc.
    destruct (negb (FS.exists_ d to_path)); [done|].
    by destruct (negb (FS.exists_ d (parent from_path))). }
  split_and!; [done| | |].
  - intros rest succ fail continued. subst continued.
    by rewrite (apply_links_failed _ _ _ _ _ _ _ _ _ _ [msg] Hstep).
  - by rewrite update_app_config_keeps_foreign.
  - intros host args registry. by rewrite update_theme_settings_keeps_foreign.
Qed.

Lemma foreign_file_is_never_replaced_witness :
  link_step Sample.op_foreign Sample.disk_foreign
    = (Ok false, Sample.disk_foreign, [MsgForeignFileConflict ["ext"; "conf.ini"]]) ∧
  disk_of (update_app_config Sample.manager Sample.env "kitty" (Some Sample.settings_dir)
             "light" "dark" Sample.disk_foreign) !! ["ext"; "conf.ini"]
    = Some (File "mine").
Proof.
  destruct (foreign_file_is_never_replaced Sample.manager Sample.env "kitty" "light" "dark"
              (Some Sample.settings_dir) Sample.disk_foreign
              ["ext"; "conf.ini"] (Sample.kitty ++ ["generated"; "any-any.conf.ini"]) "mine")
    as (Hstep & _ & Hkeep & _).
  - vm_compute. reflexivity.
  - split; [|exact Hkeep]. etransitivity; [exact Hstep|]. compute_done.
Defined.

End foreign_files.

(** ** The update procedure: [update_app_config] *)

Section update.
Import ConfigManager.
Variables (self : ConfigManager.t) (env : environment) (app_name scheme palette : string).

Local Abbreviation loop := (apply_links self env app_name scheme palette).
Local Abbreviation update := (λ given, update_app_config self env app_name given scheme palette).

(** The procedure in one piece, for settings that are not in conflict. *)
Lemma update_app_config_eq (given : option app_settings) (d : FS.t) :
  unambiguous (settings_in_force self app_name given) →
  update given d =
  match planned self env app_name (settings_in_force self app_name given) scheme palette d with
  | Raise e => (Raise e, d, [])
  | Ok to_symlink =>
      match loop to_symlink [] [] d with
      | (Ok (links_succ, links_fail), d1, o1) =>
          (value_of (report self app_name links_succ links_fail d1), d1,
           o1 ++ output_of (report self app_name links_succ links_fail d1))
      | (Raise e, d1, o1) => (Raise e, d1, o1)
      end
  end.
Proof.
  intros Hs. unfold update_app_config, planned. fold (settings_in_force self app_name given).
  set (s := settings_in_force self app_name given) in *.
  assert (Hrun :
    (d ← read_disk;
     file_map ← lift (get_matching_configs self d app_name scheme palette);
     to_symlink ← lift (plan_links env s file_map);
     '(links_succ, links_fail) ← loop to_symlink [] [];
     report self app_name links_succ links_fail) d =
    match match get_matching_configs self d app_name scheme palette with
          | Ok file_map => plan_links env s file_map
          | Raise e => Raise e
          end with
    | Raise e => (Raise e, d, [])
    | Ok to_symlink =>
        match loop to_symlink [] [] d with
        | (Ok (links_succ, links_fail), d1, o1) =>
            (value_of (report self app_name links_succ links_fail d1), d1,
             o1 ++ output_of (report self app_name links_succ links_fail d1))
        | (Raise e, d1, o1) => (Raise e, d1, o1)
        end
    end).
  { rewrite bind_eq. simpl. rewrite bind_eq. unfold lift at 1.
    destruct (get_matching_configs self d app_name scheme palette) as [fm|e]; [|done].
    rewrite bind_eq. unfold lift at 1.
    destruct (plan_links env s fm) as [ops|e]; [|done].
    rewrite bind_eq. simpl.
    destruct (loop ops [] [] d) as [[[[ls lf]|e] d1] o1]; [|done].
    pose proof (report_disk self app_name ls lf d1) as H.
    destruct (report self app_name ls lf d1) as [[v d2] o2]. unfold disk_of in H. simpl in *.
    by subst d2. }
  destruct Hs as [Hs|Hs]; rewrite Hs; [done|].
  by destruct (config_dir s).
Qed.

Lemma update_app_config_conflict (given : option app_settings) (d : FS.t) :
  is_Some (config_dir (settings_in_force self app_name given)) →
  is_Some (config_map (settings_in_force self app_name given)) →
  update given d = (Ok tt, d, [MsgConfigConflict app_name]).
Proof.
  intros [cd Hcd] [cm Hcm]. unfold update_app_config.
  fold (settings_in_force self app_name given). by rewrite Hcd, Hcm.
Qed.

(** C6. Settings that name both [config_dir] and [config_map].
    [update_app_config] skips the application with one diagnostic: it
    returns normally and the disk is as it was (no link operation was
    planned, let alone applied).  But the run that is to go on with the
    other applications, [update_apps], never gets there: with the
    application in the registry it raises before it has called
    [update_app_config] for any application ([NameError] for the unbound
    name [app_registry] under the selector ["*"], [UnboundLocalError] for
    [app_list] under a list of names), so no other application is
    processed. *)
Theorem config_conflict_stops_at_update_apps (given : option app_settings) (d : FS.t) :
  is_Some (config_dir (settings_in_force self app_name given)) →
  is_Some (config_map (settings_in_force self app_name given)) →
  update given d = (Ok tt, d, [MsgConfigConflict app_name]) ∧
  (app_name ∈ PyDict.keys (app_registry self) →
   ∀ apps,
     update_apps self env apps scheme palette d
     = (Raise (match apps with
               | AllApps => NameError "app_registry"
               | TheseApps _ => UnboundLocalError "app_list"
               end), d, [])).
Proof.
  intros Hcd Hcm. split; [by apply update_app_config_conflict|].
  intros Hin apps. unfold update_apps. destruct apps; [|done].
  rewrite bind_eq. cbn.
  destruct (app_registry self) as [|[k v] reg]; [by apply elem_of_nil in Hin|done].
Qed.


End update.

Lemma config_conflict_stops_at_update_apps_witness :
  update_app_config Sample.manager_registry Sample.env "kitty" None
    "light" "dark" Sample.disk_override
  = (Ok tt, Sample.disk_override, [MsgConfigConflict "kitty"]) ∧
  update_apps Sample.manager_registry Sample.env AllApps "light" "dark" Sample.disk_override
  = (Raise (NameError "app_registry"), Sample.disk_override, []).
Proof.
  destruct (config_conflict_stops_at_update_apps Sample.manager_registry Sample.env "kitty"
              "light" "dark" None Sample.disk_override) as [Hskip Hrun].
  - vm_compute. eexists. reflexivity.
  - vm_compute. eexists. reflexivity.
  - split; [exact Hskip|]. apply (Hrun ltac:(apply elem_of_cons; by left) AllApps).
Defined.

Section explicit_map.
Import ConfigManager.

(** C8. Under the explicit-map form the mapped logical names are meant to
    produce the link operations.  With [conf.ini] matched and mapped to
    [ext/kitty.ini], building the first operation reads the unbound name
    [abs_pat] and raises: no operation is produced and no link is made.
    (The sibling [config_dir] branch calls [util.absolute_path].) *)
Theorem config_map_link_raises_name_error :
  get_matching_configs Sample.manager Sample.disk_override "kitty" "light" "dark"
    = Ok [("conf.ini", Sample.kitty ++ ["user"; "dark-any.conf.ini"])] ∧
  config_map Sample.settings_map = Some {[ "conf.ini" := ["ext"; "kitty.ini"] ]} ∧
  planned Sample.manager Sample.env "kitty" Sample.settings_map "light" "dark"
    Sample.disk_override = Raise (NameError "abs_pat") ∧
  update_app_config Sample.manager Sample.env "kitty" (Some Sample.settings_map)
    "light" "dark" Sample.disk_override
    = (Raise (NameError "abs_pat"), Sample.disk_override, []).
Proof. split_and!; [compute_done|reflexivity|compute_done|compute_done]. Qed.

End explicit_map.

(** ** Reload scripts *)

Section scripts.
Variables (self : ConfigManager.t) (env : environment) (app_name scheme palette : string).

Local Abbreviation loop := (apply_links self env app_name scheme palette).

Lemma get_matching_scripts_missing (d : FS.t) :
  FS.is_dir d (call_dir self app_name) = false →
  get_matching_scripts self d app_name scheme palette = None.
Proof. unfold get_matching_scripts, call_dir. by intros ->. Qed.

Lemma run_matching_scripts_missing (d : FS.t) :
  FS.is_dir d (call_dir self app_name) = false →
  run_matching_scripts self env app_name scheme palette d = (Raise TypeError, d, []).
Proof.
  intros H. unfold run_matching_scripts. rewrite bind_eq. simpl.
  by rewrite get_matching_scripts_missing.
Qed.

(** C10. Where the application has no [call/] directory,
    [get_matching_scripts] returns [None], on every disk; the loop of
    [update_app_config] then raises [TypeError] right after the first link it
    sets (the directory being absent when the scripts are looked up): the
    operations before it were turned down with their diagnostics, the link is
    on disk, the operations after it are not looked at, and (for unambiguous
    settings with that plan) the procedure ends with the exception instead of
    the report. *)
Theorem missing_call_dir_raises_type_error
    (before : list link_op) (op : link_op) (rest succ fail : list link_op)
    (d d1 : FS.t) (out : list event) :
  (∀ op', op' ∈ before → value_of (link_step op' d) = Ok false) →
  link_step op d = (Ok true, d1, out) →
  FS.is_dir d1 (call_dir self app_name) = false →
  (∀ d0, FS.is_dir d0 (call_dir self app_name) = false →
         get_matching_scripts self d0 app_name scheme palette = None) ∧
  loop (before ++ op :: rest) succ fail d
    = (Raise TypeError, d1, flat_map (λ op', output_of (link_step op' d)) before ++ out) ∧
  ∀ given,
    unambiguous (settings_in_force self app_name given) →
    planned self env app_name (settings_in_force self app_name given) scheme palette d
      = Ok (before ++ op :: rest) →
    update_app_config self env app_name given scheme palette d
      = (Raise TypeError, d1, flat_map (λ op', output_of (link_step op' d)) before ++ out).
Proof.
  intros Hbefore Hstep Hcall.
  assert (Hloop : ∀ succ fail,
    loop (before ++ op :: rest) succ fail d
    = (Raise TypeError, d1, flat_map (λ op', output_of (link_step op' d)) before ++ out)).
  { clear succ fail. induction before as [|op' before IH]; intros succ fail.
    - simpl app. rewrite apply_links_cons, Hstep, run_matching_scripts_missing by done.
      by rewrite app_nil_r.
    - rewrite <- app_comm_cons, apply_links_cons.
      pose proof (Hbefore op' ltac:(apply elem_of_cons; by left)) as Hop'.
      destruct (link_step op' d) as [[v d'] o'] eqn:Hs. unfold value_of in Hop'.
      simpl in Hop'. subst v.
      destruct (link_step_failed _ _ _ _ Hs) as [-> _].
      rewrite IH; [simpl; by rewrite Hs, app_assoc|].
      intros op'' Hin. apply Hbefore, elem_of_cons. by right. }
  split_and!; [apply get_matching_scripts_missing|apply Hloop|].
  intros given Hs Hplan. by rewrite update_app_config_eq, Hplan, Hloop.
Qed.

(** What one script contributes to the list of launched scripts. *)
Lemma run_script_executed script d :
  executed (output_of (run_script env script d)) = [script].
Proof.
  unfold run_script. rewrite !bind_eq. simpl.
  destruct (script_succeeds env script); simpl; [|done].
  by destruct (style_has_reset env).
Qed.

Lemma executed_app out1 out2 : executed (out1 ++ out2) = executed out1 ++ executed out2.
Proof. unfold executed. apply omap_app. Qed.

(** The scripts launched by one pass over [l] are a first part of [l]. *)
Lemma for_each_run_script_executed (l : list path) (d : FS.t) :
  executed (output_of (for_each l (run_script env) d)) `prefix_of` l.
Proof.
  revert d. induction l as [|s l IH]; intros d; simpl; [done|].
  rewrite bind_eq. pose proof (run_script_executed s d) as Hs.
  destruct (run_script env s d) as [[[[]|e] d1] o1]; unfold output_of in *; simpl in *.
  - specialize (IH d1). destruct (for_each l (run_script env) d1) as [[v d2] o2]. simpl in *.
    rewrite executed_app, Hs. simpl. by apply prefix_cons.
  - rewrite Hs. apply prefix_cons, prefix_nil.
Qed.

Lemma prefix_NoDup {A} (l1 l2 : list A) : l1 `prefix_of` l2 → NoDup l2 → NoDup l1.
Proof. intros [k ->] H. by apply NoDup_app in H as [? _]. Qed.

Lemma get_matching_scripts_spec (d : FS.t) :
  match get_matching_scripts self d app_name scheme palette with
  | Some script_list =>
      NoDup script_list ∧
      ∀ script, script ∈ script_list ↔
                script ∈ FS.iterdir d (call_dir self app_name) ∧
                stem_of script ∈ theme_prefixes scheme palette
  | None => FS.is_dir d (call_dir self app_name) = false
  end.
Proof.
  unfold get_matching_scripts. fold (call_dir self app_name).
  destruct (FS.is_dir d (call_dir self app_name)); [|done]. cbn [negb].
  split; [apply NoDup_elements|].
  intros script. rewrite elem_of_elements, elem_of_list_to_set.
  rewrite list_elem_of_In, in_flat_map. setoid_rewrite <- list_elem_of_In.
  setoid_rewrite list_elem_of_filter. split.
  - intros (pre & Hpre & Hstem & Hin). split; [done|]. by rewrite Hstem.
  - intros [Hin Hstem]. by exists (stem_of script).
Qed.

Lemma link_step_not_a_launch (op : link_op) (d : FS.t) :
  executed (output_of (link_step op d)) = [].
Proof. destruct op as [f t]. rewrite link_step_eq. by repeat case_match. Qed.

Lemma for_each_not_a_launch {A} (l : list A) (body : A → M unit) (d : FS.t) :
  (∀ x d0, executed (output_of (body x d0)) = []) →
  executed (output_of (for_each l body d)) = [].
Proof.
  intros Hbody. revert d. induction l as [|x l IH]; intros d; [done|].
  cbn [for_each]. rewrite bind_eq. specialize (Hbody x d).
  destruct (body x d) as [[[[]|e] d1] o1]; [|done].
  specialize (IH d1). destruct (for_each l body d1) as [[v d2] o2].
  unfold output_of in *. cbn [fst snd] in *. by rewrite executed_app, Hbody, IH.
Qed.

Lemma report_not_a_launch (succ fail : list link_op) (d : FS.t) :
  executed (output_of (report self app_name succ fail d)) = [].
Proof.
  unfold report. rewrite bind_eq.
  assert (Hline : ∀ (line : path → path → event) (l : list link_op) d0,
    (∀ f t, executed [line f t] = []) →
    executed (output_of
      (for_each l (λ '(from_p, to_p),
         to_p ← lift (relative_to to_p (self_config_dir self));
         print (line from_p to_p)) d0)) = []).
  { intros line l d0 Hl. apply for_each_not_a_launch. intros [f t] d1.
    rewrite bind_eq. unfold lift.
    destruct (relative_to t (self_config_dir self)); [apply Hl|done]. }
  pose proof (Hline (MsgLinked app_name) succ d ltac:(done)) as H1.
  destruct (for_each succ _ d) as [[[[]|e] d1] o1]; [|done].
  pose proof (Hline (MsgFailed app_name) fail d1 ltac:(done)) as H2.
  destruct (for_each fail _ d1) as [[v d2] o2].
  unfold output_of in *. cbn [fst snd] in *. by rewrite executed_app, H1, H2.
Qed.

Lemma run_script_eq (s : path) (d : FS.t) :
  run_script env s d =
  if script_succeeds env s then
    if style_has_reset env
    then (Ok tt, d, [MsgRunningScript s; ExecScript s; MsgScriptOutput s])
    else (Raise (AttributeError "RESET"), d, [MsgRunningScript s; ExecScript s])
  else (Raise (CalledProcessError s), d, [MsgRunningScript s; ExecScript s]).
Proof.
  unfold run_script. rewrite !bind_eq. cbn.
  destruct (script_succeeds env s); cbn; [|done]. by destruct (style_has_reset env).
Qed.

(** Where [Style.RESET] does not exist, a script pass that launches a script
    ends with an exception, after that one script. *)
Lemma scripts_without_style_reset (d : FS.t) :
  style_has_reset env = false →
  (List.length (executed (output_of (run_matching_scripts self env app_name scheme palette d)))
   ≤ 1)%nat ∧
  (executed (output_of (run_matching_scripts self env app_name scheme palette d)) ≠ [] →
   ∃ e, value_of (run_matching_scripts self env app_name scheme palette d) = Raise e).
Proof.
  intros Hreset. unfold run_matching_scripts. rewrite bind_eq. cbn [read_disk].
  destruct (get_matching_scripts self d app_name scheme palette) as [[|s l]|].
  - cbn. split; [lia|done].
  - cbn [for_each]. rewrite bind_eq, run_script_eq, Hreset.
    destruct (script_succeeds env s); (split; [cbn; lia|intros _; by eexists]).
  - cbn. split; [lia|done].
Qed.

Lemma loop_without_style_reset (ops succ fail : list link_op) (d : FS.t) :
  style_has_reset env = false →
  (List.length (executed (output_of (loop ops succ fail d))) ≤ 1)%nat ∧
  (executed (output_of (loop ops succ fail d)) ≠ [] →
   ∃ e, value_of (loop ops succ fail d) = Raise e).
Proof.
  intros Hreset. revert succ fail d.
  induction ops as [|op ops IH]; intros succ fail d; [cbn; split; [lia|done]|].
  rewrite apply_links_cons. pose proof (link_step_not_a_launch op d) as H1.
  destruct (link_step op d) as [[[[]|e] d1] o1].
  - destruct (scripts_without_style_reset d1 Hreset) as [H2 H3].
    destruct (run_matching_scripts self env app_name scheme palette d1)
      as [[[[]|e] d2] o2].
    + destruct (IH (succ ++ [op]) fail d2) as [H4 H5].
      destruct (loop ops (succ ++ [op]) fail d2) as [[v d3] o3].
      unfold output_of, value_of in *; cbn [fst snd] in *.
      assert (executed o2 = []) as Ho2.
      { destruct (executed o2); [done|]. by destruct H3 as [? [=]]. }
      by rewrite !executed_app, H1, Ho2.
    + unfold output_of, value_of in *; cbn [fst snd] in *.
      rewrite executed_app, H1. cbn [app]. split; [done|by eexists].
  - destruct (IH succ (fail ++ [op]) d1) as [H4 H5].
    destruct (loop ops succ (fail ++ [op]) d1) as [[v d3] o3].
    unfold output_of, value_of in *; cbn [fst snd] in *.
    by rewrite executed_app, H1.
  - unfold output_of, value_of in *; cbn [fst snd] in *.
    rewrite H1. split; [cbn; lia|done].
Qed.

(** C9. With [colorama.Style] as it is published (it has no attribute
    [RESET]), one [update_app_config] launches each script at most once.
    The list [get_matching_scripts] returns holds every script of [call/]
    whose stem is on the ladder, each once (the duplicates are removed
    through a set); and no script path occurs twice among the scripts that
    one invocation launches, whatever the settings and the disk: the pass
    after a link ends with the first script it launches. *)
Theorem each_script_runs_at_most_once (given : option app_settings) (d : FS.t) :
  style_has_reset env = false →
  match get_matching_scripts self d app_name scheme palette with
  | Some script_list =>
      NoDup script_list ∧
      ∀ script, script ∈ script_list ↔
                script ∈ FS.iterdir d (call_dir self app_name) ∧
                stem_of script ∈ theme_prefixes scheme palette
  | None => FS.is_dir d (call_dir self app_name) = false
  end ∧
  NoDup (executed (output_of
    (update_app_config self env app_name given scheme palette d))).
Proof.
  intros Hreset. split; [apply get_matching_scripts_spec|].
  assert (Hone : ∀ l : list path, (List.length l ≤ 1)%nat → NoDup l).
  { intros [|x [|y l]] Hl; [constructor|apply NoDup_singleton|cbn in Hl; lia]. }
  apply Hone.
  destruct (config_dir (settings_in_force self app_name given)) as [cd|] eqn:Hcd;
    [destruct (config_map (settings_in_force self app_name given)) as [cm|] eqn:Hcm|].
  - rewrite (update_app_config_conflict self env app_name scheme palette given d)
      by by eexists.
    cbn. lia.
  - assert (Hun : unambiguous (settings_in_force self app_name given)) by by right.
    rewrite (update_app_config_eq self env app_name scheme palette given d Hun).
    destruct (planned self env app_name _ scheme palette d) as [ops|e]; [|cbn; lia].
    destruct (loop_without_style_reset ops [] [] d Hreset) as [H1 H2].
    destruct (loop ops [] [] d) as [[[[ls lf]|e] d1] o1]; [|done].
    pose proof (report_not_a_launch ls lf d1) as Hr.
    unfold output_of, value_of in *; cbn [fst snd] in *.
    assert (executed o1 = []) as Ho1.
    { destruct (executed o1); [done|]. by destruct H2 as [? [=]]. }
    rewrite executed_app, Ho1, Hr. cbn. lia.
  - assert (Hun : unambiguous (settings_in_force self app_name given)) by by left.
    rewrite (update_app_config_eq self env app_name scheme palette given d Hun).
    destruct (planned self env app_name _ scheme palette d) as [ops|e]; [|cbn; lia].
    destruct (loop_without_style_reset ops [] [] d Hreset) as [H1 H2].
    destruct (loop ops [] [] d) as [[[[ls lf]|e] d1] o1]; [|done].
    pose proof (report_not_a_launch ls lf d1) as Hr.
    unfold output_of, value_of in *; cbn [fst snd] in *.
    assert (executed o1 = []) as Ho1.
    { destruct (executed o1); [done|]. by destruct H2 as [? [=]]. }
    rewrite executed_app, Ho1, Hr. cbn. lia.
Qed.

End scripts.

Lemma missing_call_dir_raises_type_error_witness :
  update_app_config Sample.manager Sample.env "kitty" (Some Sample.settings_dir)
    "any" "any" Sample.disk_two
  = (Raise TypeError, <[Sample.op_conf.1 := Symlink Sample.op_conf.2]> Sample.disk_two, []).
Proof.
  apply (missing_call_dir_raises_type_error Sample.manager Sample.env "kitty" "any" "any"
           [] Sample.op_conf [Sample.op_theme] [] []
           Sample.disk_two
           (<[Sample.op_conf.1 := Symlink Sample.op_conf.2]> Sample.disk_two) []).
  - intros op' Hin. by apply elem_of_nil in Hin.
  - compute_done.
  - vm_compute. reflexivity.
  - right. reflexivity.
  - compute_done.
Defined.

(** C4. The loop is meant to hand back every operation, as succeeded or as
    failed.  With two operations planned and no [call/] directory, the first
    link is set and the procedure ends with [TypeError]: the second
    operation is never looked at, and nothing is reported for either. *)
Theorem successful_link_aborts_the_loop :
  planned Sample.manager Sample.env "kitty" Sample.settings_dir "any" "any" Sample.disk_two
    = Ok [Sample.op_conf; Sample.op_theme] ∧
  FS.exists_ Sample.disk_two (call_dir Sample.manager "kitty") = false ∧
  apply_links Sample.manager Sample.env "kitty" "any" "any"
    [Sample.op_conf; Sample.op_theme] [] [] Sample.disk_two
    = (Raise TypeError, <[Sample.op_conf.1 := Symlink Sample.op_conf.2]> Sample.disk_two, []) ∧
  update_app_config Sample.manager Sample.env "kitty" (Some Sample.settings_dir)
    "any" "any" Sample.disk_two
    = (Raise TypeError, <[Sample.op_conf.1 := Symlink Sample.op_conf.2]> Sample.disk_two, []).
Proof. split_and!; compute_done. Qed.

Lemma each_script_runs_at_most_once_witness :
  NoDup (executed (output_of
    (update_app_config Sample.manager Sample.env_colorama "kitty" (Some Sample.settings_dir)
       "any" "any" Sample.disk_scripts))).
Proof.
  apply (each_script_runs_at_most_once Sample.manager Sample.env_colorama "kitty" "any" "any"
           (Some Sample.settings_dir) Sample.disk_scripts).
  reflexivity.
Defined.

(** With [colorama.Style] as published (no attribute [RESET]) the report of
    the first script's output raises, right after that script has run. *)
Lemma script_report_raises_without_style_reset :
  update_app_config Sample.manager Sample.env_colorama "kitty" (Some Sample.settings_dir)
    "any" "any" Sample.disk_scripts
  = (Raise (AttributeError "RESET"),
     <[Sample.op_conf.1 := Symlink Sample.op_conf.2]> Sample.disk_scripts,
     [MsgRunningScript (Sample.kitty ++ ["call"; "any-any.sh"]);
      ExecScript (Sample.kitty ++ ["call"; "any-any.sh"])]).
Proof. compute_done. Qed.

(** ** Links set one after the other *)

Section set_links.





End set_links.

(** ** What the manager reads does not depend on links set elsewhere *)

Section reads.
Variables (self : ConfigManager.t) (app_name : string).







End reads.

(** ** Running the update twice *)

Section paths.

Lemma relink (d : FS.t) (f t : path) :
  d !! (parent f) = Some Dir → foreign d f = false →
  FS.unlink d f = Ok (delete f d) ∧
  FS.symlink_to (delete f d) f t = Ok (<[f := Symlink t]> d).
Proof.
  intros Hpar Hf.
  assert (Hne : parent f ≠ f).
  { intros Heq. rewrite Heq in Hpar. unfold foreign in Hf. by rewrite Hpar in Hf. }
  split.
  - unfold FS.unlink, foreign in *. rewrite (stat_dir _ _ Hpar).
    destruct (d !! f) as [[c| |tgt]|] eqn:Hlook; try done.
    by rewrite delete_id.
  - unfold FS.symlink_to.
    rewrite (stat_dir (delete f d) (parent f)) by (by rewrite lookup_delete_ne).
    by rewrite lookup_delete_eq, insert_delete_eq.
Qed.







End paths.

Section twice.
Variables (self : ConfigManager.t) (env : environment) (app_name scheme palette : string).

Local Abbreviation loop := (apply_links self env app_name scheme palette).
Local Abbreviation scripts := (run_matching_scripts self env app_name scheme palette).
Local Abbreviation update := (λ given, update_app_config self env app_name given scheme palette).
















End twice.



(** That plan is not settled: the internal file [generated/any-any.a.conf]
    is reached through [ext/b.conf], a place where the plan sets a link. *)
Lemma second_run_plan_is_not_settled :
  settled_plan Sample.manager Sample.env "kitty" Sample.settings_dir "any" "any"
    Sample.disk_chain = false.
Proof. vm_compute. reflexivity. Qed.

(** ** The loop as a partition, and the driver *)

Section partition.
Variables (self : ConfigManager.t) (env : environment) (app_name scheme palette : string).

(** When the loop returns, it returns every operation, on one list or the
    other. *)
Lemma apply_links_partition (ops succ fail : list link_op) (d d' : FS.t)
    (links_succ links_fail : list link_op) (out : list event) :
  apply_links self env app_name scheme palette ops succ fail d
    = (Ok (links_succ, links_fail), d', out) →
  links_succ ++ links_fail ≡ₚ succ ++ fail ++ ops.
Proof.
  revert succ fail d out. induction ops as [|op ops IH]; intros succ fail d out.
  - intros [= <- <- <- <-]. by rewrite app_nil_r.
  - rewrite apply_links_cons.
    destruct (link_step op d) as [[[[]|e] d1] o1]; [| |done].
    + destruct (run_matching_scripts self env app_name scheme palette d1)
        as [[[[]|e] d2] o2]; [|done].
      destruct (apply_links self env app_name scheme palette ops (succ ++ [op]) fail d2)
        as [[v d3] o3] eqn:Hl.
      intros [= -> <- <-]. rewrite (IH _ _ _ _ Hl).
      rewrite <- !app_assoc. apply Permutation_app_head. simpl.
      by rewrite Permutation_middle.
    + destruct (apply_links self env app_name scheme palette ops succ (fail ++ [op]) d1)
        as [[v d3] o3] eqn:Hl.
      intros [= -> <- <-]. rewrite (IH _ _ _ _ Hl). by rewrite <- !app_assoc.
Qed.

(** [update_apps] as it stands: with a registry that is not empty it raises
    before the first application is updated. *)
Lemma update_apps_raises (apps : apps_arg) (d : FS.t) :
  app_registry self ≠ [] →
  update_apps self env apps scheme palette d
  = (Raise (match apps with
            | AllApps => NameError "app_registry"
            | TheseApps _ => UnboundLocalError "app_list"
            end), d, []).
Proof.
  intros Hne. unfold update_apps. destruct apps; [|done].
  rewrite bind_eq. cbn. destruct (app_registry self) as [|[k v] reg]; done.
Qed.

End partition.

(** * Further properties of the code *)

Section more_links.
Variables (self : ConfigManager.t) (env : environment) (app_name scheme palette : string).

Local Abbreviation loop := (apply_links self env app_name scheme palette).
Local Abbreviation update given :=
  (update_app_config self env app_name given scheme palette).

(** X1. With the internal file present and a real directory as parent, a
    link operation is decided by what sits at [from_path]: a foreign file or
    directory makes it fail with the conflict diagnostic and an untouched
    disk; anything else (nothing, or a link, dangling or not) is replaced by
    the link to [to_path], nothing else on disk changes, nothing is
    printed. *)
Theorem link_operation_outcome (from_path to_path : path) (d : FS.t) :
  FS.exists_ d to_path = true → d !! (parent from_path) = Some Dir →
  link_step (from_path, to_path) d =
  if foreign d from_path then (Ok false, d, [MsgForeignFileConflict from_path])
  else (Ok true, <[from_path := Symlink to_path]> d, []).
Proof. apply link_step_settled. Qed.

(** X2. When the parent of [from_path] is a regular file (and the internal
    file exists, and no foreign file sits at [from_path]), the operation
    raises [NotADirectoryError] from [unlink] ([missing_ok] forgives a
    missing file only): it is not put on [links_fail], and the loop ends
    there, the operations after it not processed. *)
Theorem link_under_file_parent_raises (from_path to_path : path) (content : string)
    (rest succ fail : list link_op) (d : FS.t) :
  d !! (parent from_path) = Some (File content) →
  FS.exists_ d to_path = true → foreign d from_path = false →
  link_step (from_path, to_path) d = (Raise (NotADirectoryError from_path), d, []) ∧
  loop ((from_path, to_path) :: rest) succ fail d
    = (Raise (NotADirectoryError from_path), d, []).
Proof.
  intros Hpar Ht Hf.
  assert (Hstep : link_step (from_path, to_path) d
                  = (Raise (NotADirectoryError from_path), d, [])).
  { rewrite link_step_eq, Ht. cbn [negb].
    assert (Hsp : FS.stat d (parent from_path) = Some (File content)).
    { unfold FS.stat. cbn. by rewrite Hpar. }
    unfold FS.exists_ at 1. rewrite Hsp. cbn [negb].
    assert (Hc : FS.exists_ d from_path && negb (FS.is_symlink d from_path) = false).
    { apply not_true_is_false. rewrite <- foreign_conflict. congruence. }
    rewrite Hc. unfold FS.unlink. by rewrite Hsp. }
  split; [done|]. by rewrite apply_links_cons, Hstep.
Qed.

(** X3. When the link loop returns, its two lists hold every operation it
    was given, each on exactly one of them, next to what the lists held
    before. *)
Theorem link_loop_partitions (ops succ fail : list link_op) (d d' : FS.t)
    (links_succ links_fail : list link_op) (out : list event) :
  loop ops succ fail d = (Ok (links_succ, links_fail), d', out) →
  links_succ ++ links_fail ≡ₚ succ ++ fail ++ ops.
Proof. apply apply_links_partition. Qed.

Lemma apply_links_frame (ops succ fail : list link_op) (d : FS.t) (p : path) :
  p ∉ ops.*1 → disk_of (loop ops succ fail d) !! p = d !! p.
Proof.
  unfold link_op in *.
  revert succ fail d. induction ops as [|[f t] ops IH]; intros succ fail d Hp; [done|].
  rewrite fmap_cons in Hp. apply not_elem_of_cons in Hp as [Hpf Hp]. cbn [fst] in Hpf.
  rewrite apply_links_cons. unfold link_op in *.
  destruct (link_step (f, t) d) as [[[[]|e] d1] o1] eqn:Hstep;
    destruct (link_step_frame _ _ _ _ _ _ Hstep) as [Hfr _]; specialize (Hfr p Hpf).
  - pose proof (run_matching_scripts_disk self env app_name scheme palette d1) as H2.
    destruct (run_matching_scripts self env app_name scheme palette d1)
      as [[[[]|e] d2] o2]; unfold disk_of in H2; cbn in H2; subst d2; [|done].
    specialize (IH (succ ++ [(f, t)]) fail d1 Hp).
    destruct (loop ops (succ ++ [(f, t)]) fail d1) as [[v d3] o3].
    exact (eq_trans IH Hfr).
  - specialize (IH succ (fail ++ [(f, t)]) d1 Hp).
    destruct (loop ops succ (fail ++ [(f, t)]) d1) as [[v d3] o3].
    exact (eq_trans IH Hfr).
  - done.
Qed.

(** X4. [update_app_config] writes at the planned link places only.  Take
    a run that launches no reload script (what a script does to the disk is
    its own affair), and a path [p] that is not the [from_path] of a
    planned operation, [p] and the planned link places being reached
    through real directories (none a symbolic link, none a link place):
    after the call, however it ends, [p] holds what it held before. *)
Theorem update_touches_link_places_only (given : option app_settings) (d : FS.t) (p : path) :
  (∀ ops, planned self env app_name (settings_in_force self app_name given)
            scheme palette d = Ok ops →
          (p ∉ ops.*1) ∧ forallb (direct d ops.*1) (p :: ops.*1) = true) →
  executed (output_of (update given d)) = [] →
  disk_of (update given d) !! p = d !! p.
Proof.
  intros Hp _.
  destruct (config_dir (settings_in_force self app_name given)) as [cd|] eqn:Hcd;
    [destruct (config_map (settings_in_force self app_name given)) as [cm|] eqn:Hcm|].
  - rewrite update_app_config_conflict; [done|by eexists..].
  - rewrite update_app_config_eq by by right.
    destruct (planned self env app_name _ scheme palette d) as [ops|e]; [|done].
    pose proof (apply_links_frame ops [] [] d p (proj1 (Hp ops eq_refl))) as H.
    by destruct (loop ops [] [] d) as [[[[ls lf]|e] d1] o1].
  - rewrite update_app_config_eq by by left.
    destruct (planned self env app_name _ scheme palette d) as [ops|e]; [|done].
    pose proof (apply_links_frame ops [] [] d p (proj1 (Hp ops eq_refl))) as H.
    by destruct (loop ops [] [] d) as [[[[ls lf]|e] d1] o1].
Qed.

End more_links.

Lemma link_operation_outcome_witness :
  link_step Sample.op_conf Sample.disk_two
  = (Ok true, <[Sample.op_conf.1 := Symlink Sample.op_conf.2]> Sample.disk_two, []).
Proof.
  etransitivity.
  - apply (link_operation_outcome Sample.op_conf.1 Sample.op_conf.2 Sample.disk_two);
      vm_compute; reflexivity.
  - compute_done.
Defined.

Lemma link_under_file_parent_raises_witness :
  link_step (["ext"; "sub"; "conf.ini"], Sample.op_conf.2) Cases.disk_file_parent
  = (Raise (NotADirectoryError ["ext"; "sub"; "conf.ini"]), Cases.disk_file_parent, []).
Proof.
  apply (link_under_file_parent_raises Sample.manager Sample.env "kitty" "any" "any"
           ["ext"; "sub"; "conf.ini"] Sample.op_conf.2
           "not a directory" [] [] [] Cases.disk_file_parent);
    vm_compute; reflexivity.
Defined.

Lemma link_loop_partitions_witness :
  [Sample.op_theme] ++ [Sample.op_conf] ≡ₚ [] ++ [] ++ [Sample.op_conf; Sample.op_theme].
Proof.
  apply (link_loop_partitions Sample.manager Sample.env "kitty" "any" "any"
           [Sample.op_conf; Sample.op_theme] [] [] Cases.disk_mixed
           (<[Sample.op_theme.1 := Symlink Sample.op_theme.2]> Cases.disk_mixed)
           [Sample.op_theme] [Sample.op_conf]
           [MsgForeignFileConflict Sample.op_conf.1]).
  compute_done.
Defined.

Lemma update_touches_link_places_only_witness :
  disk_of (Sample.update_any Cases.disk_mixed)
    !! (Sample.kitty ++ ["generated"; "any-any.conf.ini"])
  = Some (File "generic").
Proof.
  etransitivity.
  - apply (update_touches_link_places_only Sample.manager Sample.env "kitty" "any" "any"
             (Some Sample.settings_dir) Cases.disk_mixed
             (Sample.kitty ++ ["generated"; "any-any.conf.ini"])).
    + intros ops Hops.
      assert (ops = [Sample.op_conf; Sample.op_theme]) as ->.
      { vm_compute in Hops. injection Hops as <-. reflexivity. }
      split; [compute_done|vm_compute; reflexivity].
    + vm_compute. reflexivity.
  - vm_compute. reflexivity.
Defined.

(** ** Planning on small and on ill-formed catalogs *)

Section more_planning.
Import PyDict.
Variables (self : ConfigManager.t) (env : environment) (app_name scheme palette : string).

Local Abbreviation loop := (apply_links self env app_name scheme palette).
Local Abbreviation update given :=
  (update_app_config self env app_name given scheme palette).

Lemma get_matching_configs_ok (d : FS.t) :
  Forall well_formed_name (keys (app_config_map self d app_name)) →
  ∃ m, get_matching_configs self d app_name scheme palette = Ok m.
Proof.
  intros Hwf. unfold get_matching_configs. rewrite file_parts_of_ok by done. cbn [app].
  destruct (match_prefixes_spec (app_config_map self d app_name)
              (theme_prefixes (resolve_scheme scheme) (resolve_palette palette))
              (map file_part (keys (app_config_map self d app_name))) []
              (file_parts_catalogued _)) as (m & Hm & _).
  by exists m.
Qed.

Lemma plan_links_nil (s : app_settings) : plan_links env s [] = Ok [].
Proof. unfold plan_links. destruct (config_dir s); [done|]. by destruct (config_map s). Qed.

Lemma update_nothing_planned (given : option app_settings) (d : FS.t) :
  unambiguous (settings_in_force self app_name given) →
  planned self env app_name (settings_in_force self app_name given) scheme palette d = Ok [] →
  update given d = (Ok tt, d, []).
Proof. intros Hun Hplan. by rewrite update_app_config_eq, Hplan. Qed.

(** X5. An application whose [generated/] and [user/] are both missing (or
    are not directories) is no error: the catalog is empty, nothing is
    matched, and [update_app_config] (for unambiguous settings) returns
    without printing anything and without touching the disk. *)
Theorem missing_tiers_is_a_silent_noop (given : option app_settings) (d : FS.t) :
  FS.is_dir d (child (child (apps_dir self) app_name) "generated") = false →
  FS.is_dir d (child (child (apps_dir self) app_name) "user") = false →
  unambiguous (settings_in_force self app_name given) →
  app_config_map self d app_name = [] ∧
  get_matching_configs self d app_name scheme palette = Ok [] ∧
  update given d = (Ok tt, d, []).
Proof.
  intros Hg Hu Hun.
  assert (Hcat : app_config_map self d app_name = []).
  { unfold app_config_map, scan_subdir. cbn [fold_left]. by rewrite Hg, Hu. }
  assert (Hcfg : get_matching_configs self d app_name scheme palette = Ok []).
  { unfold get_matching_configs. by rewrite Hcat. }
  split_and!; [done..|].
  apply update_nothing_planned; [done|]. unfold planned. rewrite Hcfg. apply plan_links_nil.
Qed.

(** X6. Settings with neither [config_dir] nor [config_map] (an application
    that is not registered, say): nothing is planned, so nothing is linked,
    launched or printed.  The matching is done all the same: the call
    returns normally when every catalogued name is well formed, and raises
    for the unbound [filename] otherwise. *)
Theorem no_target_form_links_nothing (given : option app_settings) (d : FS.t) :
  config_dir (settings_in_force self app_name given) = None →
  config_map (settings_in_force self app_name given) = None →
  (Forall well_formed_name (keys (app_config_map self d app_name)) →
   update given d = (Ok tt, d, [])) ∧
  (¬ Forall well_formed_name (keys (app_config_map self d app_name)) →
   update given d = (Raise (NameError "filename"), d, [])).
Proof.
  intros Hcd Hcm. split.
  - intros Hwf. apply update_nothing_planned; [by left|].
    unfold planned. destruct (get_matching_configs_ok d Hwf) as [m ->].
    unfold plan_links. by rewrite Hcd, Hcm.
  - intros Hwf. rewrite update_app_config_eq by by left.
    unfold planned. by rewrite get_matching_configs_malformed.
Qed.

(** X7. One catalogued name without a dot is enough for
    [get_matching_configs] to raise, whatever the request and whatever else
    the catalog holds; [update_app_config] (for unambiguous settings) then
    ends with that exception before it has planned, linked or printed
    anything. *)
Theorem malformed_name_stops_the_update (given : option app_settings) (d : FS.t) :
  ¬ Forall well_formed_name (keys (app_config_map self d app_name)) →
  unambiguous (settings_in_force self app_name given) →
  get_matching_configs self d app_name scheme palette = Raise (NameError "filename") ∧
  update given d = (Raise (NameError "filename"), d, []).
Proof.
  intros Hwf Hun. split; [by apply get_matching_configs_malformed|].
  rewrite update_app_config_eq by done. unfold planned.
  by rewrite get_matching_configs_malformed.
Qed.

(** X8. [update_apps] never updates an application.  For the selector ["*"]
    and an empty registry it prints that nothing is registered and returns;
    for ["*"] and any other registry it raises for the unbound name
    [app_registry], and for a list of names for the unassigned local
    [app_list]; in every case the disk is untouched. *)
Theorem update_apps_never_updates (apps : apps_arg) (d : FS.t) :
  update_apps self env apps scheme palette d =
  match apps, app_registry self with
  | AllApps, [] => (Ok tt, d, [MsgNoneRegistered])
  | AllApps, _ :: _ => (Raise (NameError "app_registry"), d, [])
  | TheseApps _, _ => (Raise (UnboundLocalError "app_list"), d, [])
  end.
Proof.
  unfold update_apps. destruct apps; [|done].
  rewrite bind_eq. cbn. by destruct (app_registry self) as [|[k v] reg].
Qed.

End more_planning.

Lemma missing_tiers_is_a_silent_noop_witness :
  update_app_config Sample.manager Sample.env "kitty" (Some Sample.settings_dir)
    "light" "dark" Cases.disk_bare
  = (Ok tt, Cases.disk_bare, []).
Proof.
  apply (missing_tiers_is_a_silent_noop Sample.manager Sample.env "kitty" "light" "dark"
           (Some Sample.settings_dir) Cases.disk_bare).
  - vm_compute. reflexivity.
  - vm_compute. reflexivity.
  - right. reflexivity.
Defined.

Lemma no_target_form_links_nothing_witness :
  update_app_config Sample.manager Sample.env "kitty" None "light" "dark" Sample.disk_two
  = (Ok tt, Sample.disk_two, []).
Proof.
  apply (no_target_form_links_nothing Sample.manager Sample.env "kitty" "light" "dark"
           None Sample.disk_two).
  - reflexivity.
  - reflexivity.
  - vm_compute. repeat constructor.
Defined.

Lemma malformed_name_stops_the_update_witness :
  update_app_config Sample.manager Sample.env "kitty" (Some Sample.settings_dir)
    "any" "any" Sample.disk_malformed
  = (Raise (NameError "filename"), Sample.disk_malformed, []).
Proof.
  apply (malformed_name_stops_the_update Sample.manager Sample.env "kitty" "any" "any"
           (Some Sample.settings_dir) Sample.disk_malformed).
  - intros H. vm_compute in H.
    apply Forall_cons in H as [_ H]. apply Forall_cons in H as [H _]. vm_compute in H. lia.
  - right. reflexivity.
Defined.

(** ** The report *)

Section more_report.
Import PyDict.
Variables (self : ConfigManager.t) (env : environment) (app_name scheme palette : string).

Local Abbreviation loop := (apply_links self env app_name scheme palette).
Local Abbreviation update given :=
  (update_app_config self env app_name given scheme palette).
Local Abbreviation under_config_dir :=
  (λ op : link_op, ∃ rel, op.2 = self_config_dir self ++ rel).











End more_report.


(** ** The script pass *)

Section more_scripts.
Variables (self : ConfigManager.t) (env : environment) (app_name scheme palette : string).

Local Abbreviation loop := (apply_links self env app_name scheme palette).
Local Abbreviation scripts := (run_matching_scripts self env app_name scheme palette).

Lemma for_each_run_script_stops (l1 l2 : list path) (s : path) (d : FS.t) :
  (∀ x, x ∈ l1 → script_succeeds env x && style_has_reset env = true) →
  script_succeeds env s && style_has_reset env = false →
  ∃ out,
    for_each (l1 ++ s :: l2) (run_script env) d
    = (Raise (if script_succeeds env s then AttributeError "RESET"
              else CalledProcessError s), d, out) ∧
    executed out = l1 ++ [s].
Proof.
  intros Hl1 Hs. induction l1 as [|x l1 IH]; cbn [app for_each].
  - rewrite bind_eq, run_script_eq.
    destruct (script_succeeds env s); [destruct (style_has_reset env); [done|]|];
      by eexists.
  - destruct IH as (out & IH & Hex).
    { intros y Hy. apply Hl1, elem_of_cons. by right. }
    pose proof (Hl1 x ltac:(apply elem_of_cons; by left)) as [Hx1 Hx2]%andb_true_iff.
    rewrite bind_eq, run_script_eq, Hx1, Hx2, IH. eexists. split; [done|].
    change (x :: executed out = x :: l1 ++ [s]). by rewrite Hex.
Qed.

(** X10. The script pass stops at the first script that exits with an error
    ([CalledProcessError]) or whose output cannot be reported because
    [Style.RESET] does not exist ([AttributeError]): the scripts listed
    before it and that script itself have been launched, the ones after it
    are not.  The exception leaves the link loop too: the link just set
    stays on disk and the remaining operations are not processed. *)
Theorem failing_script_stops_the_pass (l1 l2 : list path) (s : path) (d : FS.t) :
  get_matching_scripts self d app_name scheme palette = Some (l1 ++ s :: l2) →
  (∀ x, x ∈ l1 → script_succeeds env x && style_has_reset env = true) →
  script_succeeds env s && style_has_reset env = false →
  let e := if script_succeeds env s then AttributeError "RESET"
           else CalledProcessError s in
  value_of (scripts d) = Raise e ∧
  executed (output_of (scripts d)) = l1 ++ [s] ∧
  ∀ op rest succ fail d0 out,
    link_step op d0 = (Ok true, d, out) →
    value_of (loop (op :: rest) succ fail d0) = Raise e ∧
    disk_of (loop (op :: rest) succ fail d0) = d.
Proof.
  intros Hget Hl1 Hs e.
  destruct (for_each_run_script_stops l1 l2 s d Hl1 Hs) as (o & Hfor & Hex).
  assert (Hpass : scripts d = (Raise e, d, o)).
  { unfold run_matching_scripts. rewrite bind_eq. cbn [read_disk]. by rewrite Hget, Hfor. }
  rewrite Hpass. split_and!; [done..|].
  intros op rest succ fail d0 out Hstep. by rewrite apply_links_cons, Hstep, Hpass.
Qed.

End more_scripts.

Lemma failing_script_stops_the_pass_witness :
  value_of (update_app_config Sample.manager Cases.env_failing "kitty"
              (Some Sample.settings_dir) "any" "any" Sample.disk_scripts)
  = Raise (CalledProcessError (Sample.kitty ++ ["call"; "any-any.sh"])).
Proof.
  destruct (failing_script_stops_the_pass Sample.manager Cases.env_failing "kitty" "any" "any"
              [] [] (Sample.kitty ++ ["call"; "any-any.sh"])
              (<[Sample.op_conf.1 := Symlink Sample.op_conf.2]> Sample.disk_scripts))
    as (_ & _ & Hloop).
  - compute_done.
  - intros x Hx. by apply elem_of_nil in Hx.
  - reflexivity.
  - destruct (Hloop Sample.op_conf [Sample.op_theme] [] [] Sample.disk_scripts [])
      as [Hv Hd]; [compute_done|].
    rewrite update_app_config_eq by (right; reflexivity).
    replace (planned Sample.manager Cases.env_failing "kitty"
               (settings_in_force Sample.manager "kitty" (Some Sample.settings_dir))
               "any" "any" Sample.disk_scripts)
      with (Ok [Sample.op_conf; Sample.op_theme] : result (list link_op)) by compute_done.
    destruct (apply_links Sample.manager Cases.env_failing "kitty" "any" "any"
                [Sample.op_conf; Sample.op_theme] [] [] Sample.disk_scripts)
      as [[[[ls lf]|e] d1] o1]; [discriminate Hv|].
    cbn in Hv |- *. by injection Hv as ->.
Defined.

(** ** The matcher on a generic request, and the names it parses *)

Section more_matcher.
Import PyDict.

Lemma get_matching_configs_spec (self : ConfigManager.t) (d : FS.t)
    (app_name scheme palette : string) :
  Forall well_formed_name (keys (app_config_map self d app_name)) →
  ∃ m, get_matching_configs self d app_name scheme palette = Ok m ∧
    ∀ conf full,
      get m conf = Some full ↔
      ∃ l1 theme l2,
        theme_prefixes (resolve_scheme scheme) (resolve_palette palette) = l1 ++ theme :: l2 ∧
        candidate (app_config_map self d app_name) theme conf full ∧
        ∀ theme' full', theme' ∈ l2 →
          ¬ candidate (app_config_map self d app_name) theme' conf full'.
Proof.
  intros Hwf. unfold get_matching_configs. rewrite file_parts_of_ok by done. cbn [app].
  destruct (match_prefixes_spec (app_config_map self d app_name)
              (theme_prefixes (resolve_scheme scheme) (resolve_palette palette))
              (map file_part (keys (app_config_map self d app_name))) []
              (file_parts_catalogued _)) as (m & -> & Hm).
  exists m. split; [done|]. intros conf full. rewrite Hm. cbn [get].
  by apply passes_value_spec.
Qed.

(** X11. A request made of wildcards only ([any] or [auto] for both the
    palette and the scheme) selects the fully generic files and nothing
    else: a logical name is bound exactly when the catalog has an
    [any-any] file for it, and to that file, whatever themed files exist
    for the same logical name. *)
Theorem generic_request_selects_generic_files (self : ConfigManager.t) (d : FS.t)
    (app_name scheme palette : string) :
  scheme ∈ ["any"; "auto"] → palette ∈ ["any"; "auto"] →
  Forall well_formed_name (keys (app_config_map self d app_name)) →
  ∃ m, get_matching_configs self d app_name scheme palette = Ok m ∧
    ∀ conf full,
      get m conf = Some full ↔
      candidate (app_config_map self d app_name) "any-any" conf full.
Proof.
  intros Hs Hp Hwf.
  destruct (get_matching_configs_spec self d app_name scheme palette Hwf) as (m & Hm & Hspec).
  exists m. split; [done|]. intros conf full. rewrite Hspec.
  assert (Hladder : theme_prefixes (resolve_scheme scheme) (resolve_palette palette)
                    = ["any-any"; "any-any"; "any-any"; "any-any"]).
  { repeat (apply elem_of_cons in Hs as [->|Hs]; [|]); try by apply elem_of_nil in Hs.
    all: repeat (apply elem_of_cons in Hp as [->|Hp]; [|]); try by apply elem_of_nil in Hp.
    all: reflexivity. }
  rewrite Hladder. split.
  - intros (l1 & theme & l2 & Heq & Hc & _).
    assert (theme ∈ ["any-any"; "any-any"; "any-any"; "any-any"]) as Hin.
    { rewrite Heq. apply elem_of_app. right. apply elem_of_cons. by left. }
    repeat (apply elem_of_cons in Hin as [->|Hin]; [done|]). by apply elem_of_nil in Hin.
  - intros Hc. exists ["any-any"; "any-any"; "any-any"], "any-any", [].
    split_and!; [done..|]. intros ?? []%elem_of_nil.
Qed.

Lemma split_dotless_prefix (a b : string) :
  dotless a → PyStr.split PyStr.dot (a +:+ "." +:+ b) = a :: PyStr.split PyStr.dot b.
Proof.
  unfold dotless. induction a as [|c a IH]; [done|].
  change (String c a +:+ "." +:+ b) with (String c (a +:+ "." +:+ b)).
  cbn [PyStr.split].
  destruct (Ascii.eqb_spec c PyStr.dot) as [->|Hc]; [done|].
  destruct (PyStr.split PyStr.dot a) as [|w ws] eqn:E; [by destruct (split_nonempty PyStr.dot a)|].
  intros [= -> ->]. by rewrite IH.
Qed.

Lemma hd_split_dotless (s : string) : dotless (hd EmptyString (PyStr.split PyStr.dot s)).
Proof.
  unfold dotless. induction s as [|c s IH]; [done|]. cbn [PyStr.split].
  destruct (Ascii.eqb_spec c PyStr.dot) as [->|Hc]; [done|].
  destruct (PyStr.split PyStr.dot s) as [|w ws] eqn:E; cbn [hd] in *.
  - by destruct (split_nonempty PyStr.dot s).
  - cbn [PyStr.split]. destruct (Ascii.eqb_spec c PyStr.dot); [done|]. by rewrite IH.
Qed.

(** X12. Names and their parts.  A file named [<theme>.<conf>] with a
    dot-free theme prefix is parsed into exactly that theme prefix and that
    logical name (dots in the logical name included); and whatever name is
    parsed, its theme part has no dot and theme part, dot and logical name
    put together give the name back, so no two names are parsed alike. *)
Theorem theme_and_name_round_trip (theme conf : string) :
  dotless theme →
  file_parts_of [theme +:+ "." +:+ conf] []
    = Ok [(theme, conf, theme +:+ "." +:+ conf)] ∧
  ∀ pathname theme' conf',
    file_parts_of [pathname] [] = Ok [(theme', conf', pathname)] →
    dotless theme' ∧ pathname = theme' +:+ "." +:+ conf'.
Proof.
  intros Hth. split.
  - unfold file_parts_of. cbv zeta. rewrite (split_dotless_prefix theme conf Hth).
    assert (Nat.ltb (List.length (theme :: PyStr.split PyStr.dot conf)) 2 = false) as ->.
    { apply Nat.ltb_ge. pose proof (split_nonempty PyStr.dot conf).
      destruct (PyStr.split PyStr.dot conf); [done|]. cbn [List.length]. lia. }
    cbn [hd tl app]. by rewrite join_split.
  - intros pathname theme' conf'. unfold file_parts_of. cbv zeta.
    destruct (Nat.ltb_spec (List.length (PyStr.split PyStr.dot pathname)) 2) as [|Hlen];
      [done|].
    cbn [app]. intros [= <- <-]. split; [apply hd_split_dotless|].
    destruct (PyStr.split PyStr.dot pathname) as [|a [|b rest]] eqn:Hs;
      cbn [List.length] in Hlen; [lia..|].
    cbn [hd tl]. by apply candidate_pathname.
Qed.

End more_matcher.

Lemma generic_request_selects_generic_files_witness :
  ∃ m, get_matching_configs Sample.manager Sample.disk_override "kitty" "auto" "auto" = Ok m ∧
       PyDict.get m "conf.ini" = Some (Sample.kitty ++ ["generated"; "any-any.conf.ini"]).
Proof.
  destruct (generic_request_selects_generic_files Sample.manager Sample.disk_override
              "kitty" "auto" "auto") as (m & Hm & Hspec).
  - apply elem_of_cons. right. apply elem_of_cons. by left.
  - apply elem_of_cons. right. apply elem_of_cons. by left.
  - vm_compute. repeat constructor.
  - exists m. split; [exact Hm|]. apply Hspec.
    exists "any-any.conf.ini", ["conf"; "ini"]. vm_compute. split_and!; done.
Defined.

Lemma theme_and_name_round_trip_witness :
  file_parts_of ["dark-any.conf.ini"] [] = Ok [("dark-any", "conf.ini", "dark-any.conf.ini")].
Proof.
  apply (theme_and_name_round_trip "dark-any" "conf.ini"). reflexivity.
Defined.

(** ** The constructor *)

Section more_construct.
Import Construct.
Variables (env : environment) (pf : platform) (given : option path).

Lemma is_dir_exists (d : FS.t) (p : path) : FS.is_dir d p = true → FS.exists_ d p = true.
Proof. unfold FS.is_dir, FS.exists_. by destruct (FS.stat d p). Qed.

Lemma check_paths_ok (self : ConfigManager.t) (d : FS.t) :
  check_paths self d = Ok tt ↔ populated d (self_config_dir self).
Proof.
  unfold check_paths, listdir, populated, apps_dir.
  pose proof (is_dir_exists d (child (self_config_dir self) "apps")) as Hde.
  destruct (FS.exists_ d (self_config_dir self)); cbn [negb];
    [|split; [done|by intros (? & _)]].
  destruct (FS.exists_ d (child (self_config_dir self) "apps")); cbn [negb].
  - destruct (FS.is_dir d (child (self_config_dir self) "apps"));
      [|split; [done|by intros (_ & ? & _)]].
    destruct (FS.iterdir d (child (self_config_dir self) "apps"));
      [split; [done|by intros (_ & _ & ?)]|done].
  - split; [done|]. intros (_ & Hd & _). by specialize (Hde Hd).
Qed.

Lemma check_paths_raise (self : ConfigManager.t) (d : FS.t) :
  ¬ populated d (self_config_dir self) →
  check_paths self d =
  Raise (if FS.exists_ d (self_config_dir self)
            && FS.exists_ d (child (self_config_dir self) "apps")
            && negb (FS.is_dir d (child (self_config_dir self) "apps"))
         then NotADirectoryError (child (self_config_dir self) "apps")
         else ValueError).
Proof.
  rewrite <- check_paths_ok. unfold check_paths, listdir, apps_dir.
  destruct (FS.exists_ d (self_config_dir self)); cbn [negb andb]; [|done].
  destruct (FS.exists_ d (child (self_config_dir self) "apps")); cbn [negb andb]; [|done].
  destruct (FS.is_dir d (child (self_config_dir self) "apps")); cbn [negb]; [|done].
  by destruct (FS.iterdir d (child (self_config_dir self) "apps")).
Qed.

Lemma init_eq (disable : bool) (d : FS.t) :
  init env pf given disable d =
  let self := {| self_config_dir := chosen_dir env pf given; app_registry := [] |} in
  match check_paths self d with
  | Raise e => (Raise e, [])
  | Ok _ => if disable then (Ok self, []) else check_registry pf self d
  end.
Proof. unfold init, chosen_dir. by destruct given. Qed.

Lemma init_ok (disable : bool) (d : FS.t) (self : ConfigManager.t) (notices : list notice) :
  init env pf given disable d = (Ok self, notices) →
  self_config_dir self = chosen_dir env pf given ∧
  populated d (chosen_dir env pf given) ∧
  (disable = true ∨ notices ≠ [] → app_registry self = []).
Proof.
  rewrite init_eq. cbv zeta.
  destruct (check_paths _ d) as [[]|e] eqn:Hcp; [|done].
  apply check_paths_ok in Hcp. destruct disable.
  - intros [= <- <-]. by split_and!.
  - unfold check_registry, with_registry. cbn [self_config_dir].
    destruct (negb (FS.exists_ d _)); [by intros [= <- <-]; split_and!|].
    destruct (load_toml pf d _) as [[app|]|e]; [| |done].
    + intros [= <- <-]. split_and!; [done..|]. by intros [|].
    + intros [= <- <-]. by split_and!.
Qed.

(** X13. The constructor returns a manager only for a populated layout: the
    configuration directory exists and its [apps/] is a directory with at
    least one entry.  The manager then works on the absolute path of the
    directory it was given ([xdg_config_path()] when none was); and with the
    registry disabled that layout is all it takes. *)
Theorem constructor_accepts_populated_layout_only (d : FS.t) :
  (∀ disable self notices,
     init env pf given disable d = (Ok self, notices) →
     self_config_dir self = chosen_dir env pf given ∧
     populated d (chosen_dir env pf given)) ∧
  (populated d (chosen_dir env pf given) →
   init env pf given true d
   = (Ok {| self_config_dir := chosen_dir env pf given; app_registry := [] |}, [])).
Proof.
  split.
  - intros disable self notices (? & ? & _)%init_ok. done.
  - intros Hpop. rewrite init_eq. cbv zeta.
    by apply (check_paths_ok {| self_config_dir := chosen_dir env pf given;
                                app_registry := [] |}) in Hpop as ->.
Qed.

(** X14. On any other layout the constructor raises, before the registry is
    looked at and whatever [disable_registry] says: [NotADirectoryError]
    (from listing it) when [apps] exists without being a directory,
    [ValueError] when the configuration directory or [apps/] is missing or
    [apps/] is empty. *)
Theorem constructor_rejects_other_layouts (disable : bool) (d : FS.t) :
  ¬ populated d (chosen_dir env pf given) →
  init env pf given disable d =
  (Raise (if FS.exists_ d (chosen_dir env pf given)
             && FS.exists_ d (child (chosen_dir env pf given) "apps")
             && negb (FS.is_dir d (child (chosen_dir env pf given) "apps"))
          then NotADirectoryError (child (chosen_dir env pf given) "apps")
          else ValueError), []).
Proof.
  intros Hpop. rewrite init_eq. cbv zeta.
  by rewrite (check_paths_raise {| self_config_dir := chosen_dir env pf given;
                                   app_registry := [] |} d Hpop).
Qed.

(** X15. A manager built without a usable registry (the registry disabled,
    or a warning printed because the file is missing or has no [app] table)
    has an empty registry.  With it, [update_app_config] without explicit
    settings never touches the disk and prints nothing, and
    [update_apps] for every registered application only says that none is
    registered. *)
Theorem manager_without_registry_updates_nothing (disable : bool) (d : FS.t)
    (self : ConfigManager.t) (notices : list notice) :
  init env pf given disable d = (Ok self, notices) →
  disable = true ∨ notices ≠ [] →
  app_registry self = [] ∧
  ∀ env' app_name scheme palette d',
    disk_of (update_app_config self env' app_name None scheme palette d') = d' ∧
    output_of (update_app_config self env' app_name None scheme palette d') = [] ∧
    update_apps self env' AllApps scheme palette d' = (Ok tt, d', [MsgNoneRegistered]).
Proof.
  intros (_ & _ & Hreg)%init_ok Hwarn. specialize (Hreg Hwarn). split; [done|].
  intros env' app_name scheme palette d'.
  assert (Hs : settings_in_force self app_name None = no_settings).
  { unfold settings_in_force. by rewrite Hreg. }
  split_and!.
  - rewrite update_app_config_eq by (rewrite Hs; by left). rewrite Hs. unfold planned.
    by destruct (get_matching_configs self d' app_name scheme palette).
  - rewrite update_app_config_eq by (rewrite Hs; by left). rewrite Hs. unfold planned.
    by destruct (get_matching_configs self d' app_name scheme palette).
  - unfold update_apps. rewrite bind_eq. cbn. by rewrite Hreg.
Qed.

End more_construct.

Lemma constructor_accepts_populated_layout_only_witness :
  Construct.init Sample.env Cases.platform_keyless None true Sample.disk_override
  = (Ok Sample.manager, []).
Proof.
  apply (constructor_accepts_populated_layout_only Sample.env Cases.platform_keyless None
           Sample.disk_override).
  split_and!; [vm_compute; reflexivity..|]. vm_compute. discriminate.
Defined.

Lemma constructor_rejects_other_layouts_witness :
  Construct.init Sample.env Cases.platform_keyless (Some ["cfg"]) false Cases.disk_apps_file
  = (Raise (NotADirectoryError ["cfg"; "apps"]), []).
Proof.
  apply (constructor_rejects_other_layouts Sample.env Cases.platform_keyless (Some ["cfg"])
           false Cases.disk_apps_file).
  intros (_ & Hd & _). vm_compute in Hd. discriminate Hd.
Defined.

Lemma manager_without_registry_updates_nothing_witness :
  update_apps Sample.manager Sample.env AllApps "any" "any" Sample.disk_two
  = (Ok tt, Sample.disk_two, [MsgNoneRegistered]).
Proof.
  destruct (manager_without_registry_updates_nothing Sample.env Cases.platform_keyless None
              false Sample.disk_override Sample.manager [Construct.NoRegistryFile ["cfg"; "app_registry.toml"]])
    as [_ H].
  - vm_compute. reflexivity.
  - by right.
  - apply (H Sample.env "kitty" "any" "any" Sample.disk_two).
Defined.

(** ** [set_theme.py] *)

Section more_set_theme.
Import SetTheme.

Lemma link_app_eq (h : host) (a : args) (app_name : string)
    (s : registered) (links_succ links_fail : links) (d : FS.t) :
  osname h ∈ reg_supported_oses s →
  link_app h a app_name s (links_succ, links_fail) d =
  let names := (name_of (theme_from s), name_of (theme_to h a app_name s)) in
  if negb (FS.exists_ d (theme_to h a app_name s)) then
    (Ok (links_succ, PyDict.set links_fail app_name names), d,
     [MsgMissingTarget (theme_to h a app_name s)])
  else if FS.exists_ d (theme_from s) && negb (FS.is_symlink d (theme_from s)) then
    (Ok (links_succ, PyDict.set links_fail app_name names), d,
     [MsgOriginNotSymlink (theme_from s)])
  else
    match FS.unlink d (theme_from s) with
    | Raise e => (Raise e, d, [])
    | Ok d1 =>
        let finish said :=
          match FS.symlink_to d1 (theme_from s) (theme_to h a app_name s) with
          | Raise e => (Raise e, d1, said)
          | Ok d2 => (Ok (PyDict.set links_succ app_name names, links_fail), d2, said)
          end in
        match reg_refresh_cmd s with
        | Some cmd =>
            if refresh_succeeds h cmd
            then finish [MsgLinking (theme_from s) (theme_to h a app_name s); ExecRefresh cmd]
            else (Raise (CalledProcessError [cmd]), d1,
                  [MsgLinking (theme_from s) (theme_to h a app_name s); ExecRefresh cmd])
        | None => finish [MsgLinking (theme_from s) (theme_to h a app_name s)]
        end
    end.
Proof.
  intros Hos. unfold link_app, theme_from, theme_to. cbv zeta.
  rewrite bool_decide_true by done. cbn [negb].
  destruct (reg_external_theme s); cbv beta iota;
    (rewrite bind_eq; cbn [read_disk];
     match goal with |- context [negb (FS.exists_ d ?t)] =>
       destruct (negb (FS.exists_ d t)); [done|] end;
     match goal with |- context [FS.exists_ d ?f && _] =>
       destruct (FS.exists_ d f && negb (FS.is_symlink d f)); [done|] end;
     rewrite bind_eq; unfold syscall at 1;
     match goal with |- context [FS.unlink d ?f] =>
       destruct (FS.unlink d f) as [d1|e]; [|done] end;
     rewrite bind_eq; unfold print at 1;
     destruct (reg_refresh_cmd s) as [cmd|];
     [match goal with |- context [refresh_succeeds h ?c] =>
        destruct (refresh_succeeds h c) end|];
     rewrite ?bind_eq; cbn [print mret M_ret ret raise app];
     rewrite ?bind_eq; unfold syscall; cbv beta; try done;
     match goal with |- context [FS.symlink_to ?x ?f ?t] =>
       destruct (FS.symlink_to x f t); done end).
Qed.

(** X16. The legacy loop runs the refresh command between removing the old
    link and setting the new one.  For a supported application whose theme
    file exists, with a real directory for the link and no foreign file at
    its place: when the command succeeds the link points to the new theme
    and the application goes on [links_succ]; when it fails,
    [CalledProcessError] leaves the loop with the old link removed and no
    new one set, and the applications after this one are not processed. *)
Theorem refresh_runs_between_unlink_and_link (h : host) (a : args) (app_name : string)
    (s : registered) (cmd : string) (links_succ links_fail : links)
    (rest : list (string * registered)) (d : FS.t) :
  osname h ∈ reg_supported_oses s →
  FS.exists_ d (theme_to h a app_name s) = true →
  d !! (parent (theme_from s)) = Some Dir →
  foreign d (theme_from s) = false →
  reg_refresh_cmd s = Some cmd →
  let said := [MsgLinking (theme_from s) (theme_to h a app_name s); ExecRefresh cmd] in
  (refresh_succeeds h cmd = true →
   link_app h a app_name s (links_succ, links_fail) d
   = (Ok (PyDict.set links_succ app_name
            (name_of (theme_from s), name_of (theme_to h a app_name s)), links_fail),
      <[theme_from s := Symlink (theme_to h a app_name s)]> d, said)) ∧
  (refresh_succeeds h cmd = false →
   link_apps h a ((app_name, s) :: rest) (links_succ, links_fail) d
   = (Raise (CalledProcessError [cmd]), delete (theme_from s) d, said)).
Proof.
  intros Hos Ht Hpar Hf Hcmd said. subst said.
  destruct (relink d (theme_from s) (theme_to h a app_name s) Hpar Hf) as [Hun Hsym].
  assert (Hc : FS.exists_ d (theme_from s) && negb (FS.is_symlink d (theme_from s)) = false).
  { apply not_true_is_false. rewrite <- foreign_conflict. congruence. }
  pose proof (link_app_eq h a app_name s links_succ links_fail d Hos) as Hstep.
  cbv zeta in Hstep. rewrite Ht, Hc, Hun, Hcmd in Hstep. cbn [negb] in Hstep.
  split; intros Hr; rewrite Hr in Hstep.
  - by rewrite Hsym in Hstep.
  - cbn [link_apps]. by rewrite bind_eq, Hstep.
Qed.

End more_set_theme.

Lemma refresh_runs_between_unlink_and_link_witness :
  SetTheme.link_apps Cases.host_failing Cases.theme_args [("kitty", Cases.kitty_entry)] ([], [])
    Cases.disk_theme
  = (Raise (CalledProcessError ["kill -SIGUSR1 kitty"]),
     delete ["home"; "kitty"; "current-theme.conf"] Cases.disk_theme,
     [MsgLinking ["home"; "kitty"; "current-theme.conf"] Cases.theme_dark;
      ExecRefresh "kill -SIGUSR1 kitty"]).
Proof.
  apply (refresh_runs_between_unlink_and_link Cases.host_failing Cases.theme_args "kitty"
           Cases.kitty_entry "kill -SIGUSR1 kitty" [] [] [] Cases.disk_theme);
    [compute_done | vm_compute; reflexivity..].
Defined.

(** ** [os_scheme_settings] and the entry point *)

Section more_scheme.
Import SchemeSettings.
Variable command_outcome : list string → launch.

Lemma gsettings_argv_light :
  split_words (format_scheme
    "gsettings set org.gnome.desktop.interface color-scheme 'prefer-{scheme}'" "light")
    EmptyString = gsettings_argv "light".
Proof. reflexivity. Qed.

Lemma gsettings_argv_dark :
  split_words (format_scheme
    "gsettings set org.gnome.desktop.interface color-scheme 'prefer-{scheme}'" "dark")
    EmptyString = gsettings_argv "dark".
Proof. reflexivity. Qed.

Lemma os_scheme_settings_eq (sysname scheme : string) :
  os_scheme_settings sysname command_outcome scheme =
  if bool_decide (sysname = "Linux" ∧ scheme ∈ ["light"; "dark"]) then
    match command_outcome (gsettings_argv scheme) with
    | Exited true => (Ok tt, [gsettings_argv scheme])
    | Exited false =>
        (Raise (CalledProcessError (gsettings_argv scheme)), [gsettings_argv scheme])
    | NotStarted e => (Raise e, [])
    end
  else (Ok tt, []).
Proof.
  unfold os_scheme_settings.
  destruct (decide (scheme ∈ ["light"; "dark"])) as [Hin|Hout].
  - rewrite (bool_decide_true (scheme ∈ _)) by done. cbn [negb].
    destruct (decide (sysname = "Linux")) as [->|Hsys].
    + rewrite bool_decide_true by done.
      change (default [] (PyDict.get os_cmd_groups "Linux"))
        with ["gsettings set org.gnome.desktop.interface color-scheme 'prefer-{scheme}'"].
      cbn [run_commands].
      apply elem_of_cons in Hin as [->|Hin];
        [|apply elem_of_cons in Hin as [->|Hin]; [|by apply elem_of_nil in Hin]].
      * rewrite gsettings_argv_light. by destruct (command_outcome _) as [[]|].
      * rewrite gsettings_argv_dark. by destruct (command_outcome _) as [[]|].
    + rewrite bool_decide_false by (by intros [? _]).
      unfold os_cmd_groups. cbn [PyDict.get].
      destruct (decide ("Linux" = sysname)); [by subst|].
      by destruct (decide ("Darwin" = sysname)).
  - rewrite (bool_decide_false (scheme ∈ _)) by done. cbn [negb].
    by rewrite bool_decide_false by (by intros [_ ?]).
Qed.

(** X17. [os_scheme_settings] starts one command at most: on Linux, for
    the scheme [light] or [dark], the GNOME colour-scheme command with the
    scheme filled in (the quotes of the template are passed on as part of
    the value).  It returns when the command exits with status zero, raises
    [CalledProcessError] when it exits with another status, and lets the
    error of the launch through (nothing launched) when the program cannot
    be started, as when it is not installed.  On any other system, and for
    any other scheme, it launches nothing and returns. *)
Theorem os_scheme_settings_launches (sysname scheme : string) :
  (sysname = "Linux" ∧ scheme ∈ ["light"; "dark"] →
   os_scheme_settings sysname command_outcome scheme
   = match command_outcome (gsettings_argv scheme) with
     | Exited true => (Ok tt, [gsettings_argv scheme])
     | Exited false =>
         (Raise (CalledProcessError (gsettings_argv scheme)), [gsettings_argv scheme])
     | NotStarted e => (Raise e, [])
     end) ∧
  (¬ (sysname = "Linux" ∧ scheme ∈ ["light"; "dark"]) →
   os_scheme_settings sysname command_outcome scheme = (Ok tt, [])).
Proof.
  rewrite os_scheme_settings_eq. split; intros H.
  - by rewrite bool_decide_true.
  - by rewrite bool_decide_false.
Qed.

(** X18. The entry point of [set_theme.py] switches the desktop first: when
    that command is due (Linux, scheme [light] or [dark]) and does not end
    with status zero, because it exits with an error or because it cannot
    be started, the exception ends the program before
    [update_theme_settings] is called: nothing is linked, unlinked, printed
    or refreshed for any application. *)
Theorem failed_scheme_command_links_nothing (h : SetTheme.host) (a : SetTheme.args)
    (app_registry : PyDict.dict string SetTheme.registered) (d : FS.t) :
  SetTheme.osname h = "Linux" → SetTheme.arg_scheme a ∈ ["light"; "dark"] →
  command_outcome (gsettings_argv (SetTheme.arg_scheme a)) ≠ Exited true →
  ∃ e launched,
    main h command_outcome a app_registry d = (Raise e, d, [], launched) ∧
    match command_outcome (gsettings_argv (SetTheme.arg_scheme a)) with
    | NotStarted e' => e = e' ∧ launched = []
    | Exited _ =>
        e = CalledProcessError (gsettings_argv (SetTheme.arg_scheme a)) ∧
        launched = [gsettings_argv (SetTheme.arg_scheme a)]
    end.
Proof.
  intros Hos Hs Hfail. unfold main. rewrite os_scheme_settings_eq.
  rewrite bool_decide_true by done.
  destruct (command_outcome _) as [[]|e]; [done|by eexists _, _..].
Qed.

End more_scheme.

Lemma os_scheme_settings_launches_witness :
  SchemeSettings.os_scheme_settings "Linux"
    (λ _, SchemeSettings.NotStarted (FileNotFoundError ["gsettings"])) "dark"
  = (Raise (FileNotFoundError ["gsettings"]), []).
Proof.
  apply (os_scheme_settings_launches
           (λ _, SchemeSettings.NotStarted (FileNotFoundError ["gsettings"])) "Linux" "dark").
  split; [reflexivity|]. apply elem_of_cons. right. apply elem_of_cons. by left.
Defined.

Lemma failed_scheme_command_links_nothing_witness :
  ∃ e launched,
    SchemeSettings.main Cases.host_failing (λ _, SchemeSettings.Exited false) Cases.theme_args
      [("kitty", Cases.kitty_entry)] Cases.disk_theme
    = (Raise e, Cases.disk_theme, [], launched) ∧
    e = CalledProcessError (gsettings_argv "dark") ∧ launched = [gsettings_argv "dark"].
Proof.
  apply (failed_scheme_command_links_nothing (λ _, SchemeSettings.Exited false)
           Cases.host_failing Cases.theme_args [("kitty", Cases.kitty_entry)] Cases.disk_theme).
  - reflexivity.
  - apply elem_of_cons. right. apply elem_of_cons. by left.
  - discriminate.
Defined.
